(** * Online voting system: ballot ledger, vote store and tally

    A shallow embedding of [models.js], [middleware.js] and [routes.js].

    - Mongoose collections become fields of a database record [Db].
    - An Express middleware or handler becomes a function in a small
      state-and-early-exit monad: it either calls [next()] or ends the
      request with an [Outcome].
    - The [results] object built by the two tally loops is modelled
      twice: as the object it is, with the properties it inherits from
      [Object.prototype], and, for ids that are ordinary property names,
      as a finite map from contest id to a finite map from candidate id
      to a count.
    - Requests are modelled twice as well: served one after the other
      ([handle], [run]), and overlapping, each [await] being a point
      where other requests take steps and where the awaited call can
      fail ([start], [fire]).  What a request takes from outside the
      database (clock, random receipt, fresh id, fate of the audit write)
      is given to it as an [Env]. *)

From Stdlib Require Import ZArith.
From stdpp Require Import gmap strings list fin_maps sorting.

Local Open Scope string_scope.

(** ** Data model ([models.js]) *)

(** Mongo [ObjectId]s. *)
Definition ObjectId := nat.

(** Instants ([Date]): milliseconds since the epoch.  Stored dates are
    always valid ones, since the schema casts reject an invalid [Date]. *)
Definition Date := Z.

Record Voter := {
  email : string;
  name : string;
  role : string
}.

Record Candidate := {
  cand_id : string;
  cand_name : string
}.

Record Contest := {
  contest_id : string;
  title : string;
  candidates : list Candidate;
  maxSelections : Z
}.

Record Election := {
  election_id : ObjectId;
  election_name : string;
  startAt : Date;
  endAt : Date;
  isOpen : bool;
  isPublished : bool;
  contests : list Contest
}.

(** The unique compound index on [(voterId, electionId)] makes the
    collection a map from that pair; the record holds the other fields. *)
Record BallotAssignment := {
  issuedAt : Date;
  votedAt : option Date
}.

Record Selection := {
  contestId : string;
  selectedCandidateIds : list string
}.

Record AnonymousVote := {
  electionId : ObjectId;
  selections : list Selection;
  submittedAt : Date;
  receipt : string
}.

(** The [details] field is [Mixed]; these are the shapes the code writes. *)
Inductive Details :=
  | NoDetails
  | ReceiptDetails (r : string)
  | RequestDetails (path method : string)
  | TotalVotesDetails (n : nat)
  | ErrDetails (msg : string).

Record AuditLog := {
  actor : option string;
  actorId : option ObjectId;
  action : string;
  details : Details;
  createdAt : Date
}.

(** ** The tally loops on ordinary ids ([POST /admin/tally/run],
    [GET /results/view])

    [results] is a JavaScript object used as a map.  This section gives
    the loops for ids that are ordinary property names: the object is
    then a finite map from contest id to a finite map from candidate id to
    a count.  The loops on the objects themselves, with the properties
    that every object inherits, are [js_tally_run] and [js_results_view]
    further down; [js_tally_run_plain] shows that on ordinary ids they end
    with the counts computed here.  The routes are stated with these
    counts.  Counts are JavaScript numbers that only ever hold small
    non-negative integers. *)

Abbreviation Counts := (gmap string nat).
Abbreviation Results := (gmap string (gmap string nat)).

(** [results[c][k] = 0], with [results[c]] already an object. *)
Definition zero_candidate (c : string) (results : Results)
    (candidate : Candidate) : Results :=
  alter (λ inner, <[cand_id candidate := 0%nat]> inner) c results.

(** [results[contest.id] = {}; for (candidate of contest.candidates) ...] *)
Definition init_contest (results : Results) (contest : Contest) : Results :=
  foldl (zero_candidate (contest_id contest))
        (<[contest_id contest := ∅]> results)
        (candidates contest).

Definition init_results (cs : list Contest) : Results :=
  foldl init_contest ∅ cs.

(** [if (results[c][cid] !== undefined) results[c][cid] += 1] *)
Definition count_candidate (c : string) (results : Results)
    (cid : string) : Results :=
  match results !! c with
  | Some inner =>
      match inner !! cid with
      | Some n => <[c := <[cid := (n + 1)%nat]> inner]> results
      | None => results
      end
  | None => results
  end.

(** [if (!results[s.contestId]) continue; for (cid of ...) ...] *)
Definition count_selection (results : Results) (s : Selection) : Results :=
  match results !! contestId s with
  | None => results
  | Some _ =>
      foldl (count_candidate (contestId s)) results (selectedCandidateIds s)
  end.

Definition count_vote (results : Results) (vote : AnonymousVote) : Results :=
  foldl count_selection results (selections vote).

(** The loops of [POST /admin/tally/run]. *)
Definition tally_run_results (cs : list Contest)
    (votes : list AnonymousVote) : Results :=
  foldl count_vote (init_results cs) votes.

(** The loops of [GET /results/view], a second copy of the same text. *)
Definition results_view_results (cs : list Contest)
    (votes : list AnonymousVote) : Results :=
  let results := foldl init_contest ∅ cs in
  foldl (λ results vote,
           foldl (λ results s,
                    match results !! contestId s with
                    | None => results
                    | Some _ =>
                        foldl (count_candidate (contestId s)) results
                              (selectedCandidateIds s)
                    end)
                 results (selections vote))
        results votes.

(** ** The tally as the specification words it

    A count for a contest id and a candidate id exists exactly when the
    contest is known and the candidate is a known candidate of it; its
    value is the number of times the candidate id is listed in selections
    for that contest. *)

Definition known_contest (cs : list Contest) (c : string) : bool :=
  bool_decide (c ∈ contest_id <$> cs).

Definition known_candidate (cs : list Contest) (c k : string) : bool :=
  existsb (λ contest,
             bool_decide (contest_id contest = c)
             && bool_decide (k ∈ cand_id <$> candidates contest)) cs.

Definition occurrences (k : string) (ids : list string) : nat :=
  length (filter (λ x, x = k) ids).

Definition selection_count (c k : string) (s : Selection) : nat :=
  if decide (contestId s = c) then occurrences k (selectedCandidateIds s)
  else 0%nat.

Definition vote_count (c k : string) (vote : AnonymousVote) : nat :=
  sum_list_with (selection_count c k) (selections vote).

Definition selected_count (c k : string) (votes : list AnonymousVote) : nat :=
  sum_list_with (vote_count c k) votes.

Definition tally_reference (cs : list Contest) (votes : list AnonymousVote)
    (c k : string) : option nat :=
  if known_candidate cs c k then Some (selected_count c k votes) else None.

(** ** The tally loops on the objects themselves

    [results = {}] is a plain object: besides its own properties it has
    those of its prototype, [Object.prototype], and the accessor
    [__proto__], which reads and sets the prototype.  The loops read with
    [results[x]], which follows the prototype chain, and write with
    [results[x] = v] and [+= 1].

    A property holds a number, a string, or one of the built-in functions
    of [Object.prototype].  The state of the loops is the [results] object
    with its inner objects, the object that [results.__proto__ = {}] has
    made its prototype, if any, and the data properties of
    [Object.prototype], which the loops can overwrite and which outlive
    the request.  The loops can end normally, throw a [TypeError], or go
    beyond what is modelled here: that is when they read or write a
    property of a built-in function object such as [Object], whose
    properties are the engine's.  The module is not in strict mode: a
    write to a property of a number or string is dropped. *)

Inductive Val :=
  | Num (n : nat)
  | Str (s : string)
  | Native (f : string).

Abbreviation Obj := (gmap string Val).

Record Heap := {
  own : gmap string (gmap string Val);
  proto : option (gmap string Val);
  objectPrototype : gmap string Val
}.

Inductive Completion (A : Type) :=
  | Normal (a : A)
  | Throws
  | Beyond.
Arguments Normal {A} a.
Arguments Throws {A}.
Arguments Beyond {A}.

Definition and_then {A B} (m : Completion A) (k : A → Completion B)
    : Completion B :=
  match m with
  | Normal a => k a
  | Throws => Throws
  | Beyond => Beyond
  end.

Notation "'let+' x ':=' m 'in' k" := (and_then m (λ x, k))
  (at level 10, x name, m at level 100, k at level 200, only parsing).

(** The data properties of [Object.prototype] as the engine sets it up. *)
Definition pristine : gmap string Val :=
  list_to_map
    [ ("constructor", Native "Object");
      ("__defineGetter__", Native "__defineGetter__");
      ("__defineSetter__", Native "__defineSetter__");
      ("hasOwnProperty", Native "hasOwnProperty");
      ("__lookupGetter__", Native "__lookupGetter__");
      ("__lookupSetter__", Native "__lookupSetter__");
      ("isPrototypeOf", Native "isPrototypeOf");
      ("propertyIsEnumerable", Native "propertyIsEnumerable");
      ("toString", Native "toString");
      ("valueOf", Native "valueOf");
      ("toLocaleString", Native "toLocaleString") ].

(** What [String(f)] gives for the built-in function named [f]. *)
Definition native_text (f : string) : string :=
  String.append "function " (String.append f "() { [native code] }").

Definition set_own (m : gmap string (gmap string Val)) (h : Heap) : Heap :=
  {| own := m; proto := proto h; objectPrototype := objectPrototype h |}.

Definition set_proto (p : option (gmap string Val)) (h : Heap) : Heap :=
  {| own := own h; proto := p; objectPrototype := objectPrototype h |}.

Definition set_objectPrototype (m : gmap string Val) (h : Heap) : Heap :=
  {| own := own h; proto := proto h; objectPrototype := m |}.

(** What [results[key]] evaluates to: the inner object that is the own
    property [key]; the prototype of [results], for [__proto__]; or a
    value inherited from the prototype chain. *)
Inductive Ref :=
  | RInner (c : string)
  | RProto
  | RVal (v : Val).

(** [results[key]]; [None] is [undefined]. *)
Definition get_results (h : Heap) (key : string) : option Ref :=
  if decide (key = "__proto__") then Some RProto
  else
    match own h !! key with
    | Some _ => Some (RInner key)
    | None =>
        match proto h ≫= (λ p, p !! key) with
        | Some v => Some (RVal v)
        | None => RVal <$> objectPrototype h !! key
        end
    end.

(** [!x] is false. *)
Definition truthy (r : Ref) : bool :=
  match r with
  | RInner _ | RProto => true
  | RVal (Num n) => negb (n =? 0)%nat
  | RVal (Str s) => negb (String.eqb s "")
  | RVal (Native _) => true
  end.

(** What reading a property of an object gives. *)
Inductive Got :=
  | Undefined
  | Null
  | ObjectPrototype
  | Value (v : Val).

Definition lookup_chain (o : gmap string Val) (h : Heap) (key : string)
    : Got :=
  match o !! key with
  | Some v => Value v
  | None =>
      match objectPrototype h !! key with
      | Some v => Value v
      | None => Undefined
      end
  end.

(** [o[key]] for [o] an inner object, the prototype of [results], or
    [Object.prototype] itself, whose own prototype is [null]. *)
Definition get_prop (h : Heap) (r : Ref) (key : string) : Completion Got :=
  match r with
  | RInner c =>
      match own h !! c with
      | None => Throws
      | Some inner =>
          if decide (key = "__proto__") then Normal ObjectPrototype
          else Normal (lookup_chain inner h key)
      end
  | RProto =>
      match proto h with
      | Some p =>
          if decide (key = "__proto__") then Normal ObjectPrototype
          else Normal (lookup_chain p h key)
      | None =>
          if decide (key = "__proto__") then Normal Null
          else Normal (match objectPrototype h !! key with
                       | Some v => Value v
                       | None => Undefined
                       end)
      end
  | RVal _ => Beyond
  end.

(** [o[key] = v] for a number or string [v].  The setter of [__proto__]
    ignores a value that is not an object; a write to an inherited
    property makes an own one. *)
Definition set_prop (h : Heap) (r : Ref) (key : string) (v : Val)
    : Completion Heap :=
  if decide (key = "__proto__") then Normal h
  else
    match r with
    | RInner c =>
        match own h !! c with
        | None => Throws
        | Some inner => Normal (set_own (<[c := <[key := v]> inner]> (own h)) h)
        end
    | RProto =>
        match proto h with
        | Some p => Normal (set_proto (Some (<[key := v]> p)) h)
        | None =>
            Normal (set_objectPrototype (<[key := v]> (objectPrototype h)) h)
        end
    | RVal _ => Beyond
    end.

(** The conversion of an object to a primitive asks for [valueOf] first,
    which objects and functions inherit from [Object.prototype]: the
    built-in one returns the object, so that [toString] is asked next; a
    value that is not a function is passed over.  [false] when the
    property holds another function. *)
Definition valueOf_passes (h : Heap) : bool :=
  match objectPrototype h !! "valueOf" with
  | Some (Native g) => String.eqb g "valueOf"
  | _ => true
  end.

(** [String(f)] for a built-in function [f], through
    [Function.prototype.toString]. *)
Definition function_to_primitive (h : Heap) (f : string)
    : Completion string :=
  if valueOf_passes h then Normal (native_text f) else Beyond.

(** [String(Object.prototype)], through [Object.prototype.toString];
    without a callable [toString] the conversion throws. *)
Definition object_to_primitive (h : Heap) : Completion string :=
  if valueOf_passes h then
    match objectPrototype h !! "toString" with
    | Some (Native g) =>
        if String.eqb g "toString" then Normal "[object Object]" else Beyond
    | _ => Throws
    end
  else Beyond.

(** [v + 1] *)
Definition add_one (h : Heap) (v : Val) : Completion Val :=
  match v with
  | Num n => Normal (Num (n + 1))
  | Str s => Normal (Str (String.append s "1"))
  | Native f =>
      let+ text := function_to_primitive h f in
      Normal (Str (String.append text "1"))
  end.

(** [results[c][k] = 0] *)
Definition js_zero_candidate (c : string) (h : Completion Heap)
    (candidate : Candidate) : Completion Heap :=
  let+ h := h in
  match get_results h c with
  | None => Throws
  | Some r => set_prop h r (cand_id candidate) (Num 0)
  end.

(** [results[contest.id] = {}; for (candidate of contest.candidates) ...]:
    for the id [__proto__] the assignment goes to the setter, which makes
    the new object the prototype of [results]. *)
Definition js_init_contest (h : Completion Heap) (contest : Contest)
    : Completion Heap :=
  let+ h := h in
  foldl (js_zero_candidate (contest_id contest))
        (Normal (if decide (contest_id contest = "__proto__")
                 then set_proto (Some ∅) h
                 else set_own (<[contest_id contest := ∅]> (own h)) h))
        (candidates contest).

(** [const results = {}; for (const contest of election.contests) ...],
    with [Object.prototype] holding [op]. *)
Definition js_init_results (op : gmap string Val) (cs : list Contest)
    : Completion Heap :=
  foldl js_init_contest
        (Normal {| own := ∅; proto := None; objectPrototype := op |}) cs.

(** [if (results[c][cid] !== undefined) results[c][cid] += 1].
    [null !== undefined] holds, and [null + 1] goes to the setter of
    [__proto__], which ignores it; so does the string that
    [Object.prototype + 1] gives.  When [results[c]] is a number or a
    string the write is dropped; when it is a built-in function the loop
    is beyond the model. *)
Definition js_count_candidate (c : string) (h : Completion Heap)
    (cid : string) : Completion Heap :=
  let+ h := h in
  match get_results h c with
  | None => Throws
  | Some (RVal (Native _)) => Beyond
  | Some (RVal _) => if valueOf_passes h then Normal h else Beyond
  | Some r =>
      let+ got := get_prop h r cid in
      match got with
      | Undefined => Normal h
      | Null => Normal h
      | ObjectPrototype => let+ _ := object_to_primitive h in Normal h
      | Value v => let+ v' := add_one h v in set_prop h r cid v'
      end
  end.

(** [if (!results[s.contestId]) continue; for (cid of ...) ...] *)
Definition js_count_selection (h : Completion Heap) (s : Selection)
    : Completion Heap :=
  let+ h := h in
  match get_results h (contestId s) with
  | None => Normal h
  | Some r =>
      if truthy r then
        foldl (js_count_candidate (contestId s)) (Normal h)
              (selectedCandidateIds s)
      else Normal h
  end.

Definition js_count_vote (h : Completion Heap) (vote : AnonymousVote)
    : Completion Heap :=
  foldl js_count_selection h (selections vote).

(** The loops of [POST /admin/tally/run] on the objects; the votes come
    from [.lean()] and are plain data. *)
Definition js_tally_run (op : gmap string Val) (cs : list Contest)
    (votes : list AnonymousVote) : Completion Heap :=
  foldl js_count_vote (js_init_results op cs) votes.

(** The loops of [GET /results/view] on the objects, the second copy.
    The votes are Mongoose documents there; their paths are read as the
    data they hold. *)
Definition js_results_view (op : gmap string Val) (cs : list Contest)
    (votes : list AnonymousVote) : Completion Heap :=
  let results := foldl js_init_contest
        (Normal {| own := ∅; proto := None; objectPrototype := op |}) cs in
  foldl (λ results vote,
           foldl (λ results s,
                    let+ h := results in
                    match get_results h (contestId s) with
                    | None => Normal h
                    | Some r =>
                        if truthy r then
                          foldl (js_count_candidate (contestId s)) (Normal h)
                                (selectedCandidateIds s)
                        else Normal h
                    end)
                 results (selections vote))
        results votes.

(** The own properties of [results] when the loops have ended, which are
    what [res.json] serialises; [None] when the loops do not end
    normally. *)
Definition sent (r : Completion Heap) : option (gmap string (gmap string Val)) :=
  match r with
  | Normal h => Some (own h)
  | _ => None
  end.

(** The entry that the response holds for candidate [k] of contest [c]. *)
Definition tallied (r : Completion Heap) (c k : string) : option Val :=
  sent r ≫= λ m, m !! c ≫= λ inner, inner !! k.

(** An id is ordinary when it is not [__proto__] and not the name of a
    property of [Object.prototype]. *)
Definition ordinary (op : gmap string Val) (k : string) : Prop :=
  k ≠ "__proto__" ∧ op !! k = None.

(** The ids of a schema, and the ids that votes name. *)
Definition schema_ids (cs : list Contest) : list string :=
  cs ≫= λ contest, contest_id contest :: (cand_id <$> candidates contest).

Definition vote_ids (vs : list AnonymousVote) : list string :=
  vs ≫= λ vote, selections vote ≫= λ s,
    contestId s :: selectedCandidateIds s.

(** [v] raised by [n], for a count. *)
Definition raised (n : nat) (v : Val) : Val :=
  match v with
  | Num m => Num (m + n)
  | _ => v
  end.

(** The counts of the ordinary loops as objects. *)
Definition plain (op : gmap string Val) (results : Results) : Heap :=
  {| own := (λ inner : gmap string nat, Num <$> inner) <$> results;
     proto := None; objectPrototype := op |}.

(** ** Persistent state and the request environment *)

Record User := {
  user_id : ObjectId;
  user_doc : Voter
}.

Record Db := {
  voters : list User;
  elections : list Election;
  assignments : gmap (ObjectId * ObjectId) BallotAssignment;
  votes : list AnonymousVote;
  auditLogs : list AuditLog
}.

(** What a request reads from outside the database: the clock
    ([new Date()], [Date.now]), [crypto.randomBytes(24).toString('hex')],
    the [ObjectId] given to a created election, and whether the write of
    [AuditLog.create] goes through.  In [handle] a request is served
    within one instant, and the other storage calls go through unless a
    schema constraint rejects the document; in [fire] the clock moves on
    between the calls and any call can fail. *)
Record Env := {
  now : Date;
  randomReceipt : string;
  freshId : ObjectId;
  auditWriteOk : bool
}.

(** What the [Authorization] header and [jwt.verify] yield. *)
Inductive Authorization :=
  | NoHeader
  | NoToken
  | BadToken (err : string)
  | Verified (sub : ObjectId).

Inductive Body :=
  | Message (m : string)
  | BallotBody (eid : ObjectId) (nm : string) (cs : list Contest)
  | ReceiptBody (m : string) (r : string)
  | ElectionBody (e : Election)
  | ResultsBody (eid : ObjectId) (r : Results)
  | LogsBody (logs : list AuditLog).

(** A handler either writes a response, or its promise rejects before
    any response is written. *)
Inductive Outcome :=
  | Reply (status : nat) (body : Body)
  | Rejected.

(** The status vocabulary of the specification, as the responses the
    code sends. *)
Definition AlreadyVoted : Outcome := Reply 403 (Message "Already voted").
Definition NotEligible : Outcome := Reply 403 (Message "Election not open").
Definition NotFound : Outcome := Reply 500 (Message "No election configured").
Definition NotAuthorized : Outcome := Reply 403 (Message "Admin only").

(** ** The middleware monad: state passing with an early exit *)

Inductive Step (A : Type) :=
  | Next (a : A)
  | Done (o : Outcome).
Arguments Next {A} a.
Arguments Done {A} o.

Definition M (A : Type) : Type := Db → Step A * Db.

Definition ret {A} (a : A) : M A := λ db, (Next a, db).

Definition bind {A B} (m : M A) (k : A → M B) : M B :=
  λ db, match m db with
        | (Next a, db') => k a db'
        | (Done o, db') => (Done o, db')
        end.

Definition reply {A} (status : nat) (b : Body) : M A :=
  λ db, (Done (Reply status b), db).

Definition reject {A} : M A := λ db, (Done Rejected, db).

Definition get_db : M Db := λ db, (Next db, db).

Definition modify_db (f : Db → Db) : M unit := λ db, (Next (), f db).

Notation "'let*' x ':=' m 'in' k" := (bind m (λ x, k))
  (at level 10, x name, m at level 100, k at level 200, only parsing).

(** A route always ends the request. *)
Definition serve (h : M Empty_set) (db : Db) : Outcome * Db :=
  match h db with
  | (Next a, _) => match a with end
  | (Done o, db') => (o, db')
  end.

(** ** Storage operations *)

Definition set_elections (es : list Election) (db : Db) : Db :=
  {| voters := voters db; elections := es; assignments := assignments db;
     votes := votes db; auditLogs := auditLogs db |}.

Definition set_assignments
    (m : gmap (ObjectId * ObjectId) BallotAssignment) (db : Db) : Db :=
  {| voters := voters db; elections := elections db; assignments := m;
     votes := votes db; auditLogs := auditLogs db |}.

Definition set_votes (vs : list AnonymousVote) (db : Db) : Db :=
  {| voters := voters db; elections := elections db;
     assignments := assignments db; votes := vs; auditLogs := auditLogs db |}.

Definition set_auditLogs (ls : list AuditLog) (db : Db) : Db :=
  {| voters := voters db; elections := elections db;
     assignments := assignments db; votes := votes db; auditLogs := ls |}.

(** [Voter.findById(id)] *)
Definition Voter_findById (id : ObjectId) (db : Db) : option User :=
  list_find (λ u, user_id u = id) (voters db) ≫= λ p, Some (p.2).

(** [Election.findOne()] *)
Definition Election_findOne (db : Db) : option Election :=
  head (elections db).

(** [election.save()]: the stored document with this [_id] is updated. *)
Definition Election_save (e : Election) : M unit :=
  modify_db (λ db,
    set_elections
      ((λ x, if decide (election_id x = election_id e) then e else x)
         <$> elections db) db).

(** [AuditLog.create({ actor, actorId, action, details })], awaited. *)
Definition AuditLog_create (env : Env) (who : option string)
    (whoId : option ObjectId) (act : string) (d : Details) : M unit :=
  if auditWriteOk env then
    modify_db (λ db,
      set_auditLogs
        (auditLogs db ++
           [ {| actor := who; actorId := whoId; action := act;
                details := d; createdAt := now env |} ])
        db)
  else reject.

(** The [required] validator of a [String] path rejects the empty string. *)
Definition required (s : string) : bool := negb (String.eqb s "").

Definition SelectionSchema_valid (s : Selection) : bool :=
  required (contestId s).

(** [AnonymousVote.create(...)]: schema validation, then the insert, which
    the unique index on [receipt] can refuse. *)
Definition AnonymousVote_create (env : Env) (eid : ObjectId)
    (sels : list Selection) (r : string) : M unit :=
  λ db,
    if forallb SelectionSchema_valid sels
       && required r
       && negb (existsb (λ v, String.eqb (receipt v) r) (votes db))
    then (Next (),
          set_votes (votes db ++
                       [ {| electionId := eid; selections := sels;
                            submittedAt := now env; receipt := r |} ]) db)
    else (Done Rejected, db).

(** ** Middleware ([middleware.js]) *)

Definition authMiddleware (env : Env) (a : Authorization) : M User :=
  match a with
  | NoHeader => reply 401 (Message "No Authorization header")
  | NoToken => reply 401 (Message "Invalid token header")
  | BadToken err =>
      let* _ := AuditLog_create env None None "auth_failed"
                                (ErrDetails err) in
      reply 401 (Message "Invalid or expired token")
  | Verified sub =>
      let* db := get_db in
      match Voter_findById sub db with
      | None => reply 401 (Message "User not found")
      | Some user => ret user
      end
  end.

Definition adminMiddleware (user : User) : M unit :=
  if String.eqb (role (user_doc user)) "admin" then ret ()
  else reply 403 (Message "Admin only").

Definition electionOpenMiddleware (env : Env) : M Election :=
  let* db := get_db in
  match Election_findOne db with
  | None => reply 500 (Message "No election configured")
  | Some election =>
      if negb (isOpen election)
         || (now env <? startAt election)%Z
         || (now env >? endAt election)%Z
      then reply 403 (Message "Election not open")
      else ret election
  end.

Definition oneBallotOnlyMiddleware (env : Env) (user : User)
    (election : Election) : M BallotAssignment :=
  let key := (user_id user, election_id election) in
  let* db := get_db in
  let* record :=
    match assignments db !! key with
    | Some record => ret record
    | None =>
        let record := {| issuedAt := now env; votedAt := None |} in
        let* _ :=
          modify_db (λ db,
            set_assignments (<[key := record]> (assignments db)) db) in
        ret record
    end in
  match votedAt record with
  | Some _ => reply 403 (Message "Already voted")
  | None => ret record
  end.

Definition auditLogger (actionName : string) (env : Env)
    (user : option User) (path method : string) : M unit :=
  AuditLog_create env
    (Some (match user with
           | Some u => email (user_doc u)
           | None => "anonymous"
           end))
    (user_id <$> user)
    actionName (RequestDetails path method).

(** ** Routes ([routes.js]) *)

(** [req.ballotAssignment.votedAt = new Date(); await
    req.ballotAssignment.save()]: the stored assignment gets the one
    modified path. *)
Definition BallotAssignment_save_votedAt (key : ObjectId * ObjectId)
    (t : Date) : M unit :=
  modify_db (λ db,
    set_assignments
      (alter (λ r, {| issuedAt := issuedAt r; votedAt := Some t |}) key
             (assignments db)) db).

(** [GET /ballot/get] *)
Definition ballot_get (env : Env) (a : Authorization) : M Empty_set :=
  let* user := authMiddleware env a in
  let* election := electionOpenMiddleware env in
  let* _ := oneBallotOnlyMiddleware env user election in
  let* _ := auditLogger "ballot_requested" env (Some user)
                        "/ballot/get" "GET" in
  reply 200 (BallotBody (election_id election) (election_name election)
                        (contests election)).

(** [POST /vote/submit] *)
Definition vote_submit (env : Env) (a : Authorization)
    (sels : list Selection) : M Empty_set :=
  let* user := authMiddleware env a in
  let* election := electionOpenMiddleware env in
  let* _ := oneBallotOnlyMiddleware env user election in
  let r := randomReceipt env in
  let* _ := AnonymousVote_create env (election_id election) sels r in
  let* _ := BallotAssignment_save_votedAt
              (user_id user, election_id election) (now env) in
  let* _ := AuditLog_create env (Some (email (user_doc user)))
                            (Some (user_id user)) "vote_submitted"
                            (ReceiptDetails r) in
  reply 200 (ReceiptBody "Vote submitted" r).

(** The body of [POST /admin/election/setup]. *)
Record ElectionPayload := {
  payload_name : string;
  payload_startAt : Date;
  payload_endAt : Date;
  payload_contests : list Contest
}.

Definition CandidateSchema_valid (c : Candidate) : bool :=
  required (cand_id c) && required (cand_name c).

Definition ContestSchema_valid (c : Contest) : bool :=
  required (contest_id c) && required (title c)
  && forallb CandidateSchema_valid (candidates c).

(** [new Date(ms)] is a valid date when [ms] lies within 8.64e15
    milliseconds of the epoch; outside that range it is an Invalid Date,
    which the cast of a [Date] path refuses. *)
Definition valid_date (t : Z) : bool :=
  (-8640000000000000 <=? t)%Z && (t <=? 8640000000000000)%Z.

(** [Election.create(...)]: the schema refuses an empty required string
    and an Invalid Date; [isOpen] and [isPublished] take their default,
    [false]. *)
Definition Election_create (env : Env) (p : ElectionPayload) : M Election :=
  if required (payload_name p)
     && valid_date (payload_startAt p) && valid_date (payload_endAt p)
     && forallb ContestSchema_valid (payload_contests p)
  then
    let election :=
      {| election_id := freshId env; election_name := payload_name p;
         startAt := payload_startAt p; endAt := payload_endAt p;
         isOpen := false; isPublished := false;
         contests := payload_contests p |} in
    let* _ := modify_db (λ db, set_elections (elections db ++ [election]) db) in
    ret election
  else reject.

(** [POST /admin/election/setup] *)
Definition admin_election_setup (env : Env) (a : Authorization)
    (p : ElectionPayload) : M Empty_set :=
  let* user := authMiddleware env a in
  let* _ := adminMiddleware user in
  let* _ := modify_db (set_elections []) in
  let* election := Election_create env p in
  let* _ := AuditLog_create env (Some (email (user_doc user)))
                            (Some (user_id user)) "election_setup"
                            NoDetails in
  reply 201 (ElectionBody election).

(** [const election = await Election.findOne()] followed by a property
    access: on [null] that access throws. *)
Definition the_election : M Election :=
  let* db := get_db in
  match Election_findOne db with
  | None => reject
  | Some election => ret election
  end.

Definition with_isOpen (b : bool) (e : Election) : Election :=
  {| election_id := election_id e; election_name := election_name e;
     startAt := startAt e; endAt := endAt e; isOpen := b;
     isPublished := isPublished e; contests := contests e |}.

Definition with_isPublished (b : bool) (e : Election) : Election :=
  {| election_id := election_id e; election_name := election_name e;
     startAt := startAt e; endAt := endAt e; isOpen := isOpen e;
     isPublished := b; contests := contests e |}.

(** [POST /admin/election/open] *)
Definition admin_election_open (env : Env) (a : Authorization)
    : M Empty_set :=
  let* user := authMiddleware env a in
  let* _ := adminMiddleware user in
  let* election := the_election in
  let* _ := Election_save (with_isOpen true election) in
  let* _ := AuditLog_create env (Some (email (user_doc user)))
                            (Some (user_id user)) "election_opened"
                            NoDetails in
  reply 200 (Message "Election opened").

(** [POST /admin/election/close] *)
Definition admin_election_close (env : Env) (a : Authorization)
    : M Empty_set :=
  let* user := authMiddleware env a in
  let* _ := adminMiddleware user in
  let* election := the_election in
  let* _ := Election_save (with_isOpen false election) in
  let* _ := AuditLog_create env (Some (email (user_doc user)))
                            (Some (user_id user)) "election_closed"
                            NoDetails in
  reply 200 (Message "Election closed").

(** [AnonymousVote.find({ electionId })] *)
Definition AnonymousVote_find (eid : ObjectId) (db : Db)
    : list AnonymousVote :=
  filter (λ v, electionId v = eid) (votes db).

(** [POST /admin/tally/run], with [results] as the loops on ordinary ids
    give it. *)
Definition admin_tally_run (env : Env) (a : Authorization) : M Empty_set :=
  let* user := authMiddleware env a in
  let* _ := adminMiddleware user in
  let* election := the_election in
  let* db := get_db in
  let found := AnonymousVote_find (election_id election) db in
  let results := tally_run_results (contests election) found in
  let* _ := AuditLog_create env (Some (email (user_doc user)))
                            (Some (user_id user)) "tally_run"
                            (TotalVotesDetails (length found)) in
  reply 200 (ResultsBody (election_id election) results).

(** [POST /admin/results/publish] *)
Definition admin_results_publish (env : Env) (a : Authorization)
    : M Empty_set :=
  let* user := authMiddleware env a in
  let* _ := adminMiddleware user in
  let* election := the_election in
  let* _ := Election_save (with_isPublished true election) in
  let* _ := AuditLog_create env (Some (email (user_doc user)))
                            (Some (user_id user)) "results_published"
                            NoDetails in
  reply 200 (Message "Results published").

(** [GET /results/view], with [results] as the loops on ordinary ids give
    it. *)
Definition results_view : M Empty_set :=
  let* election := the_election in
  if negb (isPublished election) then
    reply 403 (Message "Not published yet")
  else
    let* db := get_db in
    let found := AnonymousVote_find (election_id election) db in
    reply 200 (ResultsBody (election_id election)
                 (results_view_results (contests election) found)).

(** [AuditLog.find().sort({ createdAt: -1 })]: the entries, latest first.
    The engine does not fix the order of entries with the same
    [createdAt]; here it is the one a merge sort gives. *)
Definition later_first (x y : AuditLog) : Prop :=
  (createdAt y ≤ createdAt x)%Z.

#[global] Instance later_first_dec : RelDecision later_first.
Proof. intros x y. unfold later_first. apply _. Defined.

Definition AuditLog_find (db : Db) : list AuditLog :=
  merge_sort later_first (auditLogs db).

(** [GET /admin/audit/logs] *)
Definition admin_audit_logs (env : Env) (a : Authorization) : M Empty_set :=
  let* user := authMiddleware env a in
  let* _ := adminMiddleware user in
  let* db := get_db in
  reply 200 (LogsBody (AuditLog_find db)).

(** ** Requests and runs of the server

    [handle] serves one request from its first to its last step with no
    other request in between, and [run] serves requests one after the
    other.  Requests that overlap are the subject of [start] and [fire]
    further down; served alone, a request of [start] is the request of
    [handle].
    [POST /auth/login] answers with a token and depends on the password
    and token libraries; it is [auth_login], with an outcome type of its
    own. *)

Inductive Request :=
  | BallotGet (a : Authorization)
  | VoteSubmit (a : Authorization) (sels : list Selection)
  | ElectionSetup (a : Authorization) (p : ElectionPayload)
  | ElectionOpen (a : Authorization)
  | ElectionClose (a : Authorization)
  | TallyRun (a : Authorization)
  | ResultsPublish (a : Authorization)
  | AuditLogsGet (a : Authorization)
  | ResultsView.

Definition route (env : Env) (r : Request) : M Empty_set :=
  match r with
  | BallotGet a => ballot_get env a
  | VoteSubmit a sels => vote_submit env a sels
  | ElectionSetup a p => admin_election_setup env a p
  | ElectionOpen a => admin_election_open env a
  | ElectionClose a => admin_election_close env a
  | TallyRun a => admin_tally_run env a
  | ResultsPublish a => admin_results_publish env a
  | AuditLogsGet a => admin_audit_logs env a
  | ResultsView => results_view
  end.

Definition handle (env : Env) (r : Request) (db : Db) : Outcome * Db :=
  serve (route env r) db.

(** The database after a sequence of requests, each with its
    environment. *)
Definition run (db : Db) (trace : list (Env * Request)) : Db :=
  foldl (λ db er, (handle er.1 er.2 db).2) db trace.

(** ** Eligibility as the specification words it *)

Definition isAcceptingBallots (e : Election) (t : Date) : bool :=
  isOpen e && (startAt e <=? t)%Z && (t <=? endAt e)%Z.

(** ** Auxiliary notions for the proofs *)

(** The zero counts of one contest. *)
Definition zero_counts (cands : list Candidate) : Counts :=
  foldl (λ inner cand, <[cand_id cand := 0%nat]> inner) ∅ cands.

(** Adding [f k] to the count of every candidate [k] already present. *)
Definition add_counts (f : string → nat) (inner : Counts) : Counts :=
  map_imap (λ k n, Some (n + f k)%nat) inner.

Definition add_results (f : string → string → nat) (results : Results)
    : Results :=
  map_imap (λ c inner, Some (add_counts (f c) inner)) results.

(** The count that [results] holds for candidate [k] of contest [c]. *)
Definition count_of (results : Results) (c k : string) : option nat :=
  results !! c ≫= λ inner, inner !! k.

(** The audit log ties voter [u] to the stored vote [v]: one entry names
    the voter and carries the vote's receipt. *)
Definition audit_links (db : Db) (u : User) (v : AnonymousVote) : Prop :=
  v ∈ votes db ∧
  ∃ entry, entry ∈ auditLogs db
           ∧ actor entry = Some (email (user_doc u))
           ∧ actorId entry = Some (user_id u)
           ∧ details entry = ReceiptDetails (receipt v).

(** Whether a response reports success. *)
Definition succeeded (o : Outcome) : bool :=
  match o with
  | Reply 200 _ | Reply 201 _ => true
  | _ => false
  end.

(** ** Further notions: gates, login *)

(** The [Authorization] header a request is read with;
    [GET /results/view] has no [authMiddleware]. *)
Definition authorization_of (r : Request) : option Authorization :=
  match r with
  | BallotGet a | VoteSubmit a _ | ElectionSetup a _ | ElectionOpen a
  | ElectionClose a | TallyRun a | ResultsPublish a | AuditLogsGet a => Some a
  | ResultsView => None
  end.

(** The five [POST] routes behind [adminMiddleware]. *)
Definition admin_route (r : Request) : bool :=
  match r with
  | ElectionSetup _ _ | ElectionOpen _ | ElectionClose _ | TallyRun _
  | ResultsPublish _ => true
  | BallotGet _ | VoteSubmit _ _ | AuditLogsGet _ | ResultsView => false
  end.

(** The action tags that the middleware and the routes above write. *)
Definition audit_actions : list string :=
  [ "auth_failed"; "ballot_requested"; "vote_submitted"; "election_setup";
    "election_opened"; "election_closed"; "tally_run"; "results_published" ].

(** The check that [Election.create] makes on the body of a setup. *)
Definition payload_valid (p : ElectionPayload) : bool :=
  required (payload_name p)
  && valid_date (payload_startAt p) && valid_date (payload_endAt p)
  && forallb ContestSchema_valid (payload_contests p).

(** The last contest of the schema that carries id [c]. *)
Definition last_contest (cs : list Contest) (c : string) : option Contest :=
  last (filter (λ contest, contest_id contest = c) cs).

(** [POST /auth/login].  What the libraries do is taken as given:
    the cast that Mongoose applies to the [email] of the query,
    [bcrypt.compare] against the stored hash, and [jwt.sign] of the
    payload [{ sub, role, email }]. *)
Record LoginLib := {
  castEmail : string → string;
  validatePassword : User → string → bool;
  sign : ObjectId → string → string → string
}.

Inductive LoginOutcome :=
  | LoginReply (status : nat) (message : string)
  | LoginToken (token : string)
  | LoginRejected.

(** [Voter.findOne({ email })] *)
Definition Voter_findOne (lib : LoginLib) (mail : string) (db : Db)
    : option User :=
  list_find (λ u, email (user_doc u) = castEmail lib mail) (voters db)
  ≫= λ p, Some (p.2).

(** An audit write followed by the response [o]. *)
Definition audited (env : Env) (who : option string)
    (whoId : option ObjectId) (act : string) (o : LoginOutcome) (db : Db)
    : LoginOutcome * Db :=
  match AuditLog_create env who whoId act NoDetails db with
  | (Next _, db') => (o, db')
  | (Done _, db') => (LoginRejected, db')
  end.

Definition auth_login (lib : LoginLib) (env : Env) (mail password : string)
    (db : Db) : LoginOutcome * Db :=
  if negb (required mail) || negb (required password) then
    (LoginReply 400 "Missing credentials", db)
  else
    let failed :=
      audited env (Some mail) None "login_failed"
              (LoginReply 401 "Invalid credentials") db in
    match Voter_findOne lib mail db with
    | None => failed
    | Some user =>
        if validatePassword lib user password then
          audited env (Some (email (user_doc user))) (Some (user_id user))
                  "login_success"
                  (LoginToken (sign lib (user_id user) (role (user_doc user))
                                    (email (user_doc user))))
                  db
        else failed
    end.

(** ** Requests that overlap

    A handler runs until its next [await].  The call it awaits is carried
    out by the database at some later moment, in one step, and the
    handler then goes on with the answer; the clock is read when it goes
    on.  Between two steps of one request, steps of other requests can
    take place.  A call can also fail for a reason outside the program,
    such as the connection: the awaited promise is then rejected, with or
    without the write having been made.  A rejection that no [try] of
    the handler catches ends the request without a response. *)

Definition at_instant (t : Date) (env : Env) : Env :=
  {| now := t; randomReceipt := randomReceipt env; freshId := freshId env;
     auditWriteOk := auditWriteOk env |}.

(** What is left of a request: its response, or the call it awaits with
    what follows the answer and what follows a rejection. *)
Inductive Task :=
  | Finished (o : Outcome)
  | FinishedLogin (o : LoginOutcome)
  | Await {X : Type} (call : M X) (k : Date → X → Task)
          (catch : Date → string → Task).

(** No [try] around the call. *)
Definition rejects : Date → string → Task := λ _ _, Finished Rejected.

Definition rejects_login : Date → string → Task :=
  λ _ _, FinishedLogin LoginRejected.

(** The calls that only read. *)
Definition find_voter (sub : ObjectId) : M (option User) :=
  λ db, (Next (Voter_findById sub db), db).

Definition find_election : M (option Election) :=
  λ db, (Next (Election_findOne db), db).

Definition find_assignment (key : ObjectId * ObjectId)
    : M (option BallotAssignment) :=
  λ db, (Next (assignments db !! key), db).

Definition find_votes (eid : ObjectId) : M (list AnonymousVote) :=
  λ db, (Next (AnonymousVote_find eid db), db).

Definition find_logs : M (list AuditLog) :=
  λ db, (Next (AuditLog_find db), db).

Definition find_login (lib : LoginLib) (mail : string) : M (option User) :=
  λ db, (Next (Voter_findOne lib mail db), db).

(** [BallotAssignment.create(...)]: the unique index on
    [(voterId, electionId)] refuses a second document for the pair. *)
Definition BallotAssignment_create (key : ObjectId * ObjectId)
    (record : BallotAssignment) : M BallotAssignment :=
  λ db, match assignments db !! key with
        | Some _ => (Done Rejected, db)
        | None =>
            (Next record,
             set_assignments (<[key := record]> (assignments db)) db)
        end.

(** [Election.deleteMany({})] *)
Definition Election_deleteMany : M unit := modify_db (set_elections []).

(** [election.save()] after one path was set: the update goes to the
    stored document with this [_id] and changes that path; when there is
    no such document any more the save is rejected. *)
Definition Election_update (id : ObjectId) (f : Election → Election)
    : M unit :=
  λ db, if bool_decide (id ∈ election_id <$> elections db)
        then (Next (),
              set_elections
                ((λ x, if decide (election_id x = id) then f x else x)
                   <$> elections db) db)
        else (Done Rejected, db).

(** [authMiddleware]: the [try] covers [jwt.verify] and
    [Voter.findById]. *)
Definition authTask (env : Env) (a : Authorization)
    (next : Date → User → Task) : Task :=
  let invalid := Finished (Reply 401 (Message "Invalid or expired token")) in
  match a with
  | NoHeader => Finished (Reply 401 (Message "No Authorization header"))
  | NoToken => Finished (Reply 401 (Message "Invalid token header"))
  | BadToken err =>
      Await (AuditLog_create env None None "auth_failed" (ErrDetails err))
            (λ _ _, invalid) rejects
  | Verified sub =>
      Await (find_voter sub)
            (λ t found,
               match found with
               | None => Finished (Reply 401 (Message "User not found"))
               | Some user => next t user
               end)
            (λ t msg,
               Await (AuditLog_create (at_instant t env) None None
                                      "auth_failed" (ErrDetails msg))
                     (λ _ _, invalid) rejects)
  end.

Definition adminTask (user : User) (next : Task) : Task :=
  if String.eqb (role (user_doc user)) "admin" then next
  else Finished (Reply 403 (Message "Admin only")).

Definition electionOpenTask (next : Date → Election → Task) : Task :=
  Await find_election
        (λ t found,
           match found with
           | None => Finished (Reply 500 (Message "No election configured"))
           | Some election =>
               if negb (isOpen election)
                  || (t <? startAt election)%Z
                  || (t >? endAt election)%Z
               then Finished (Reply 403 (Message "Election not open"))
               else next t election
           end)
        rejects.

Definition oneBallotTask (user : User) (election : Election)
    (next : Date → BallotAssignment → Task) : Task :=
  let key := (user_id user, election_id election) in
  let check := λ t record,
    match votedAt record with
    | Some _ => Finished (Reply 403 (Message "Already voted"))
    | None => next t record
    end in
  Await (find_assignment key)
        (λ t found,
           match found with
           | Some record => check t record
           | None =>
               Await (BallotAssignment_create key
                        {| issuedAt := t; votedAt := None |})
                     check rejects
           end)
        rejects.

(** [AuditLog.create(...)] for [user], then the response. *)
Definition auditTask (env : Env) (t : Date) (user : User) (act : string)
    (d : Details) (o : Outcome) : Task :=
  Await (AuditLog_create (at_instant t env) (Some (email (user_doc user)))
                         (Some (user_id user)) act d)
        (λ _ _, Finished o) rejects.

(** [const election = await Election.findOne()] followed by a property
    access. *)
Definition the_election_task (next : Date → Election → Task) : Task :=
  Await find_election
        (λ t found,
           match found with
           | None => Finished Rejected
           | Some election => next t election
           end)
        rejects.

(** A request from its arrival, [now env] being the time of arrival. *)
Definition start (env : Env) (r : Request) : Task :=
  match r with
  | BallotGet a =>
      authTask env a (λ _ user,
        electionOpenTask (λ _ election,
          oneBallotTask user election (λ t _,
            Await (auditLogger "ballot_requested" (at_instant t env)
                               (Some user) "/ballot/get" "GET")
                  (λ _ _,
                     Finished (Reply 200
                       (BallotBody (election_id election)
                                   (election_name election)
                                   (contests election))))
                  rejects)))
  | VoteSubmit a sels =>
      authTask env a (λ _ user,
        electionOpenTask (λ _ election,
          oneBallotTask user election (λ t _,
            let r := randomReceipt env in
            Await (AnonymousVote_create (at_instant t env)
                                        (election_id election) sels r)
                  (λ t _,
                     Await (BallotAssignment_save_votedAt
                              (user_id user, election_id election) t)
                           (λ t _,
                              auditTask env t user "vote_submitted"
                                (ReceiptDetails r)
                                (Reply 200 (ReceiptBody "Vote submitted" r)))
                           rejects)
                  rejects)))
  | ElectionSetup a p =>
      authTask env a (λ _ user,
        adminTask user
          (Await Election_deleteMany
                 (λ t _,
                    Await (Election_create (at_instant t env) p)
                          (λ t election,
                             auditTask env t user "election_setup" NoDetails
                               (Reply 201 (ElectionBody election)))
                          rejects)
                 rejects))
  | ElectionOpen a =>
      authTask env a (λ _ user,
        adminTask user
          (the_election_task (λ _ election,
             Await (Election_update (election_id election) (with_isOpen true))
                   (λ t _,
                      auditTask env t user "election_opened" NoDetails
                        (Reply 200 (Message "Election opened")))
                   rejects)))
  | ElectionClose a =>
      authTask env a (λ _ user,
        adminTask user
          (the_election_task (λ _ election,
             Await (Election_update (election_id election)
                                    (with_isOpen false))
                   (λ t _,
                      auditTask env t user "election_closed" NoDetails
                        (Reply 200 (Message "Election closed")))
                   rejects)))
  | TallyRun a =>
      authTask env a (λ _ user,
        adminTask user
          (the_election_task (λ _ election,
             Await (find_votes (election_id election))
                   (λ t found,
                      auditTask env t user "tally_run"
                        (TotalVotesDetails (length found))
                        (Reply 200
                           (ResultsBody (election_id election)
                              (tally_run_results (contests election)
                                                 found))))
                   rejects)))
  | ResultsPublish a =>
      authTask env a (λ _ user,
        adminTask user
          (the_election_task (λ _ election,
             Await (Election_update (election_id election)
                                    (with_isPublished true))
                   (λ t _,
                      auditTask env t user "results_published" NoDetails
                        (Reply 200 (Message "Results published")))
                   rejects)))
  | AuditLogsGet a =>
      authTask env a (λ _ user,
        adminTask user
          (Await find_logs (λ _ logs, Finished (Reply 200 (LogsBody logs)))
                 rejects))
  | ResultsView =>
      the_election_task (λ _ election,
        if negb (isPublished election) then
          Finished (Reply 403 (Message "Not published yet"))
        else
          Await (find_votes (election_id election))
                (λ _ found,
                   Finished (Reply 200
                     (ResultsBody (election_id election)
                        (results_view_results (contests election) found))))
                rejects)
  end.

(** [POST /auth/login] from its arrival; [bcrypt.compare] is awaited
    too. *)
Definition start_login (lib : LoginLib) (env : Env) (mail password : string)
    : Task :=
  if negb (required mail) || negb (required password) then
    FinishedLogin (LoginReply 400 "Missing credentials")
  else
    let failed := λ t : Date,
      Await (AuditLog_create (at_instant t env) (Some mail) None
                             "login_failed" NoDetails)
            (λ _ _, FinishedLogin (LoginReply 401 "Invalid credentials"))
            rejects_login in
    Await (find_login lib mail)
          (λ t found,
             match found with
             | None => failed t
             | Some user =>
                 Await (ret (validatePassword lib user password))
                       (λ t ok,
                          if ok : bool then
                            Await (AuditLog_create (at_instant t env)
                                     (Some (email (user_doc user)))
                                     (Some (user_id user))
                                     "login_success" NoDetails)
                                  (λ _ _,
                                     FinishedLogin
                                       (LoginToken
                                          (sign lib (user_id user)
                                                (role (user_doc user))
                                                (email (user_doc user)))))
                                  rejects_login
                          else failed t)
                       rejects_login
             end)
          rejects_login.

(** The server: the database and the requests that have arrived, each
    with what is left of it. *)
Record Config := {
  store : Db;
  pool : list Task
}.

Definition initial (db : Db) : Config := {| store := db; pool := [] |}.

(** What happens: a request arrives; the call that request [i] awaits
    completes at time [t]; or that call fails at time [t] with a message,
    the write having been made or not. *)
Inductive Event :=
  | Arrives (env : Env) (req : Request)
  | Arrives_login (lib : LoginLib) (env : Env) (mail password : string)
  | Completes (i : nat) (t : Date)
  | Fails (i : nat) (t : Date) (msg : string) (written : bool).

(** The message of the error with which the database refuses a document:
    a failed validation, a duplicate key, a document that is gone. *)
Definition refused : string := "refused".

Definition resume (task : Task) (t : Date) (db : Db) : option (Task * Db) :=
  match task with
  | Await call k catch =>
      Some (match call db with
            | (Next x, db') => (k t x, db')
            | (Done _, db') => (catch t refused, db')
            end)
  | _ => None
  end.

Definition interrupt (task : Task) (t : Date) (msg : string) (written : bool)
    (db : Db) : option (Task * Db) :=
  match task with
  | Await call k catch =>
      Some (catch t msg, if written then (call db).2 else db)
  | _ => None
  end.

Definition set_task (i : nat) (c : Config) (r : Task * Db) : Config :=
  {| store := r.2; pool := <[i := r.1]> (pool c) |}.

Definition fire (ev : Event) (c : Config) : option Config :=
  match ev with
  | Arrives env req =>
      Some {| store := store c; pool := pool c ++ [start env req] |}
  | Arrives_login lib env mail password =>
      Some {| store := store c;
              pool := pool c ++ [start_login lib env mail password] |}
  | Completes i t =>
      task ← pool c !! i; set_task i c <$> resume task t (store c)
  | Fails i t msg written =>
      task ← pool c !! i;
      set_task i c <$> interrupt task t msg written (store c)
  end.

(** The request whose step an event is. *)
Definition request_of (ev : Event) : option nat :=
  match ev with
  | Completes i _ | Fails i _ _ _ => Some i
  | _ => None
  end.

(** The configuration after a sequence of events, provided [p] holds of
    every configuration on the way, the first and the last included. *)
Fixpoint along (p : Config → bool) (c : Config) (evs : list Event)
    : option Config :=
  if p c then
    match evs with
    | [] => Some c
    | ev :: evs => fire ev c ≫= λ c', along p c' evs
    end
  else None.

Definition runs : Config → list Event → option Config :=
  along (λ _, true).

(** The election with id [eid] is the one configured. *)
Definition configured (eid : ObjectId) (c : Config) : bool :=
  bool_decide (election_id <$> Election_findOne (store c) = Some eid).

(** A request served alone, every call completing at time [t]. *)
Fixpoint alone (t : Date) (task : Task) (db : Db) : Task * Db :=
  match task with
  | Await call k catch =>
      match call db with
      | (Next x, db') => alone t (k t x) db'
      | (Done _, db') => alone t (catch t refused) db'
      end
  | _ => (task, db)
  end.

(** ** Notions for the proofs about overlapping requests *)

(** The voters of [db'] are those of [db], and every assignment of [db]
    is still in [db'], with its [issuedAt], and with [votedAt] set if it
    was. *)
Definition kept (db db' : Db) : Prop :=
  voters db' = voters db
  ∧ ∀ key r, assignments db !! key = Some r →
      ∃ r', assignments db' !! key = Some r'
            ∧ issuedAt r' = issuedAt r
            ∧ (is_Some (votedAt r) → is_Some (votedAt r')).

(** Every call of the task keeps the voters and the assignments. *)
Fixpoint safe (task : Task) : Prop :=
  match task with
  | Await call k catch =>
      (∀ db, kept db (call db).2)
      ∧ (∀ t x, safe (k t x))
      ∧ (∀ t msg, safe (catch t msg))
  | _ => True
  end.

(** The election with id [eid] is configured and the assignment of voter
    [sub] for it carries [votedAt]. *)
Definition settled (sub eid : ObjectId) (db : Db) : Prop :=
  election_id <$> Election_findOne db = Some eid
  ∧ ∃ r, assignments db !! (sub, eid) = Some r ∧ is_Some (votedAt r).

(** The ways in which a submission is turned down; the last three only
    when the voter is not stored or a call has failed. *)
Definition turned_down (clean : bool) (o : Outcome) : Prop :=
  o = AlreadyVoted ∨ o = NotEligible
  ∨ (clean = false
     ∧ (o = Rejected
        ∨ o = Reply 401 (Message "User not found")
        ∨ o = Reply 401 (Message "Invalid or expired token"))).

(** While [settled] holds the task writes neither a vote nor an
    assignment, and it ends turned down; [clean] when the voter is
    stored and no call of the task fails. *)
Fixpoint harmless (sub eid : ObjectId) (clean : bool) (task : Task) : Prop :=
  match task with
  | Finished o => turned_down clean o
  | FinishedLogin _ => False
  | Await call k catch =>
      (∀ db, settled sub eid db →
         (clean = true → is_Some (Voter_findById sub db)) →
         votes (call db).2 = votes db
         ∧ assignments (call db).2 = assignments db
         ∧ (clean = true → ∃ x, (call db).1 = Next x)
         ∧ ∀ t x, (call db).1 = Next x → harmless sub eid clean (k t x))
      ∧ (∀ t msg, harmless sub eid false (catch t msg))
  end.

(** The event is a failed call of request [i]. *)
Definition fails_of (i : nat) (ev : Event) : bool :=
  match ev with
  | Fails j _ _ _ => bool_decide (j = i)
  | _ => false
  end.

(** ** The scenario of the specification: election E1 with contest C1
    (one selection allowed) and candidates A and B; voter v1; an admin. *)
Module Scenario.

Definition contestC1 : Contest :=
  {| contest_id := "C1"; title := "Chair";
     candidates := [ {| cand_id := "A"; cand_name := "Ann" |};
                     {| cand_id := "B"; cand_name := "Bob" |} ];
     maxSelections := 1%Z |}.

Definition E1 : Election :=
  {| election_id := 7; election_name := "E1"; startAt := 1000%Z;
     endAt := 2000%Z; isOpen := true; isPublished := false;
     contests := [contestC1] |}.

Definition v1 : User :=
  {| user_id := 1;
     user_doc := {| email := "v1@example.org"; name := "V One";
                    role := "voter" |} |}.

Definition root : User :=
  {| user_id := 2;
     user_doc := {| email := "root@example.org"; name := "Root";
                    role := "admin" |} |}.

Definition db0 : Db :=
  {| voters := [v1; root]; elections := [E1]; assignments := ∅;
     votes := []; auditLogs := [] |}.

Definition at_time (t : Z) (r : string) (ok : bool) : Env :=
  {| now := t; randomReceipt := r; freshId := 8; auditWriteOk := ok |}.

Definition pickA : list Selection :=
  [ {| contestId := "C1"; selectedCandidateIds := ["A"] |} ].

(** A contest that does not exist. *)
Definition unknownContest : list Selection :=
  [ {| contestId := "C9"; selectedCandidateIds := ["A"] |} ].

(** A candidate that does not exist. *)
Definition unknownCandidate : list Selection :=
  [ {| contestId := "C1"; selectedCandidateIds := ["Z"] |} ].

(** Two selected ids where one is allowed. *)
Definition tooMany : list Selection :=
  [ {| contestId := "C1"; selectedCandidateIds := ["A"; "B"] |} ].

(** The same id three times. *)
Definition tripleA : list Selection :=
  [ {| contestId := "C1"; selectedCandidateIds := ["A"; "A"; "A"] |} ].

Definition voteA : AnonymousVote :=
  {| electionId := 7; selections := pickA; submittedAt := 1500%Z;
     receipt := "r1" |}.

Definition voteAAA : AnonymousVote :=
  {| electionId := 7; selections := tripleA; submittedAt := 1600%Z;
     receipt := "r2" |}.

(** v1 submits at time 1500, and every call of the request completes. *)
Definition submission_alone : list Event :=
  Arrives (at_time 1500 "r1" true) (VoteSubmit (Verified 1) pickA)
  :: replicate 7 (Completes 0 1500%Z).

(** After a second submission of v1 has arrived as request 1, v1 asks for
    the ballot as request 2; the steps of the two alternate. *)
Definition afterwards : list Event :=
  [ Arrives (at_time 1600 "r3" true) (BallotGet (Verified 1));
    Completes 1 1600%Z; Completes 2 1600%Z; Completes 1 1601%Z;
    Completes 2 1601%Z; Completes 1 1602%Z; Completes 2 1602%Z ].

(** Two submissions of v1 arrive together.  Request 0 finds no assignment
    and creates one; request 1 finds it, without [votedAt]; both go on to
    store a vote and to set [votedAt], at 1500 and at 1501. *)
Definition race : list Event :=
  [ Arrives (at_time 1500 "r1" true) (VoteSubmit (Verified 1) pickA);
    Arrives (at_time 1500 "r2" true) (VoteSubmit (Verified 1) pickA);
    Completes 0 1500%Z; Completes 1 1500%Z;
    Completes 0 1500%Z; Completes 1 1500%Z;
    Completes 0 1500%Z; Completes 0 1500%Z; Completes 1 1500%Z;
    Completes 0 1500%Z; Completes 1 1501%Z;
    Completes 0 1500%Z; Completes 1 1501%Z;
    Completes 0 1500%Z; Completes 1 1501%Z ].

End Scenario.

(** ** Ids that are not ordinary: a schema that repeats a contest id, a
    contest named [__proto__], and votes that name [toString]. *)
Module Odd.

Definition candidate (k : string) : Candidate :=
  {| cand_id := k; cand_name := k |}.

Definition contest (c : string) (ks : list string) : Contest :=
  {| contest_id := c; title := c; candidates := candidate <$> ks;
     maxSelections := 1%Z |}.

Definition vote (r c : string) (ks : list string) : AnonymousVote :=
  {| electionId := 7;
     selections := [ {| contestId := c; selectedCandidateIds := ks |} ];
     submittedAt := 1500%Z; receipt := r |}.

(** Two contests with the id C1. *)
Definition twice : list Contest := [ contest "C1" ["A"]; contest "C1" ["B"] ].

(** A contest with the id [__proto__]. *)
Definition protoContest : list Contest := [ contest "__proto__" ["A"] ].

(** Contest C1 with candidates A and B. *)
Definition schema : list Contest := [ contest "C1" ["A"; "B"] ].

(** A vote for the unknown candidate [toString] of C1. *)
Definition voteToString : AnonymousVote := vote "r1" "C1" ["toString"].

(** A vote for candidate [toString] of the unknown contest [__proto__]. *)
Definition voteProto : AnonymousVote := vote "r2" "__proto__" ["toString"].

End Odd.

(** * Properties of the tally *)

Lemma results_view_results_eq cs vs :
  results_view_results cs vs = tally_run_results cs vs.
Proof. reflexivity. Qed.

Lemma add_counts_lookup f (inner : Counts) k :
  add_counts f inner !! k = (λ n, (n + f k)%nat) <$> inner !! k.
Proof.
  unfold add_counts. rewrite map_lookup_imap.
  by destruct (inner !! k).
Qed.

Lemma add_results_lookup f (results : Results) c :
  add_results f results !! c = add_counts (f c) <$> results !! c.
Proof.
  unfold add_results. rewrite map_lookup_imap.
  by destruct (results !! c).
Qed.

Lemma add_counts_ext f g (inner : Counts) :
  (∀ k, f k = g k) → add_counts f inner = add_counts g inner.
Proof.
  intros Hfg. apply map_eq. intros k.
  rewrite !add_counts_lookup. by rewrite Hfg.
Qed.

Lemma add_results_ext f g (results : Results) :
  (∀ c k, f c k = g c k) → add_results f results = add_results g results.
Proof.
  intros Hfg. apply map_eq. intros c.
  rewrite !add_results_lookup.
  destruct (results !! c) as [inner|]; simpl; [|done].
  f_equal. apply add_counts_ext. intros k. apply Hfg.
Qed.

Lemma add_counts_zero (inner : Counts) :
  add_counts (λ _, 0%nat) inner = inner.
Proof.
  apply map_eq. intros k. rewrite add_counts_lookup.
  destruct (inner !! k); simpl; [f_equal; lia | done].
Qed.

Lemma add_counts_add f g (inner : Counts) :
  add_counts g (add_counts f inner) = add_counts (λ k, (f k + g k)%nat) inner.
Proof.
  apply map_eq. intros k. rewrite !add_counts_lookup.
  destruct (inner !! k); simpl; [f_equal; lia | done].
Qed.

Lemma add_results_add f g (results : Results) :
  add_results g (add_results f results)
  = add_results (λ c k, (f c k + g c k)%nat) results.
Proof.
  apply map_eq. intros c. rewrite !add_results_lookup.
  destruct (results !! c) as [inner|]; simpl; [|done].
  f_equal. apply add_counts_add.
Qed.

Lemma add_results_zero f (results : Results) :
  (∀ c k, f c k = 0%nat) → add_results f results = results.
Proof.
  intros Hf. apply map_eq. intros c. rewrite add_results_lookup.
  destruct (results !! c) as [inner|]; simpl; [|done].
  f_equal. rewrite <- (add_counts_zero inner) at 2.
  apply add_counts_ext. intros k. apply Hf.
Qed.

Lemma count_of_add_results f results c k :
  count_of (add_results f results) c k
  = (λ n, (n + f c k)%nat) <$> count_of results c k.
Proof.
  unfold count_of. rewrite add_results_lookup.
  destruct (results !! c) as [inner|]; simpl; [|done].
  apply add_counts_lookup.
Qed.

(** ** Initialisation *)

Lemma zero_candidates_insert c (inner : Counts) (results : Results) cands :
  foldl (zero_candidate c) (<[c := inner]> results) cands
  = <[c := foldl (λ m cand, <[cand_id cand := 0%nat]> m) inner cands]> results.
Proof.
  revert inner. induction cands as [|cand cands IH]; intros inner; simpl.
  - done.
  - unfold zero_candidate at 2. rewrite alter_insert_eq. apply IH.
Qed.

Lemma init_contest_insert results contest :
  init_contest results contest
  = <[contest_id contest := zero_counts (candidates contest)]> results.
Proof. apply zero_candidates_insert. Qed.

Lemma zero_fold_lookup (inner : Counts) cands k :
  foldl (λ m cand, <[cand_id cand := 0%nat]> m) inner cands !! k
  = if decide (k ∈ cand_id <$> cands) then Some 0%nat else inner !! k.
Proof.
  revert inner. induction cands as [|cand cands IH]; intros inner.
  - done.
  - rewrite fmap_cons. simpl. rewrite IH, lookup_insert.
    destruct (decide (k ∈ cand_id <$> cands)) as [H1|H1];
      destruct (decide (k ∈ cand_id cand :: (cand_id <$> cands))) as [H2|H2];
      destruct (decide (cand_id cand = k)) as [H3|H3];
      try done; set_solver.
Qed.

Lemma zero_counts_lookup cands k :
  zero_counts cands !! k
  = if decide (k ∈ cand_id <$> cands) then Some 0%nat else None.
Proof. unfold zero_counts. rewrite zero_fold_lookup. by rewrite lookup_empty. Qed.

Lemma init_results_snoc cs contest :
  init_results (cs ++ [contest])
  = <[contest_id contest := zero_counts (candidates contest)]>
      (init_results cs).
Proof.
  unfold init_results. rewrite foldl_app. simpl.
  apply init_contest_insert.
Qed.

Lemma init_results_is_Some cs c :
  is_Some (init_results cs !! c) ↔ c ∈ contest_id <$> cs.
Proof.
  induction cs as [|contest cs IH] using rev_ind.
  - unfold init_results. simpl. rewrite lookup_empty.
    split; [by intros [? ?] | by intros ?%elem_of_nil].
  - rewrite init_results_snoc, fmap_app, elem_of_app. simpl.
    rewrite lookup_insert. case_decide as Hc.
    + subst c. split; [intros _; right; set_solver | eauto].
    + rewrite IH. set_solver.
Qed.

Lemma known_candidate_snoc cs contest c k :
  known_candidate (cs ++ [contest]) c k
  = known_candidate cs c k
    || (bool_decide (contest_id contest = c)
        && bool_decide (k ∈ cand_id <$> candidates contest)).
Proof.
  unfold known_candidate. rewrite existsb_app. simpl.
  by rewrite orb_false_r.
Qed.

Lemma known_candidate_known_contest cs c k :
  known_candidate cs c k = true → c ∈ contest_id <$> cs.
Proof.
  unfold known_candidate. rewrite existsb_exists.
  intros (contest & Hin & Hb). apply andb_prop in Hb as [Hc _].
  apply bool_decide_eq_true in Hc. subst c.
  apply list_elem_of_fmap_2. by apply list_elem_of_In.
Qed.

Lemma init_results_count_of cs c k :
  NoDup (contest_id <$> cs) →
  count_of (init_results cs) c k
  = if known_candidate cs c k then Some 0%nat else None.
Proof.
  induction cs as [|contest cs IH] using rev_ind; intros Hnd.
  - unfold count_of, init_results. simpl. by rewrite lookup_empty.
  - rewrite fmap_app in Hnd. apply NoDup_app in Hnd as (Hnd & Hfresh & _).
    rewrite init_results_snoc, known_candidate_snoc.
    unfold count_of. rewrite lookup_insert. case_decide as Hc.
    + subst c. simpl. rewrite zero_counts_lookup.
      rewrite bool_decide_true by done. simpl.
      destruct (known_candidate cs (contest_id contest) k) eqn:Hk.
      * apply known_candidate_known_contest in Hk.
        exfalso. apply (Hfresh _ Hk). set_solver.
      * simpl. by case_decide; [rewrite bool_decide_true | rewrite bool_decide_false].
    + rewrite bool_decide_false by done. simpl. rewrite orb_false_r.
      by apply IH.
Qed.

(** ** The counting loops add, to every count already in [results], the
    number of times its candidate is selected *)

Lemma count_candidate_add c results cid :
  count_candidate c results cid
  = add_results (λ c' k, if decide (c' = c ∧ k = cid) then 1 else 0)%nat
                results.
Proof.
  apply map_eq. intros c'. rewrite add_results_lookup.
  unfold count_candidate.
  destruct (decide (c' = c)) as [->|Hc].
  - destruct (results !! c) as [inner|] eqn:Hin; simpl; [|by rewrite Hin].
    destruct (inner !! cid) as [n|] eqn:Hn.
    + rewrite lookup_insert_eq. f_equal. apply map_eq. intros k.
      rewrite add_counts_lookup, lookup_insert.
      case_decide as Hk.
      * subst k. rewrite Hn. simpl. by rewrite decide_True.
      * rewrite decide_False by naive_solver.
        destruct (inner !! k); simpl; [f_equal; lia | done].
    + rewrite Hin. f_equal. apply map_eq. intros k.
      rewrite add_counts_lookup.
      destruct (decide (k = cid)) as [->|Hk].
      * by rewrite Hn.
      * rewrite decide_False by naive_solver.
        destruct (inner !! k); simpl; [f_equal; lia | done].
  - assert (Hz : ∀ inner : Counts,
               add_counts (λ k, if decide (c' = c ∧ k = cid) then 1 else 0)%nat
                          inner = inner).
    { intros inner. rewrite <- (add_counts_zero inner) at 2.
      apply add_counts_ext. intros k. by rewrite decide_False by naive_solver. }
    destruct (results !! c) as [inner|] eqn:Hin.
    + destruct (inner !! cid) as [n|].
      * rewrite lookup_insert_ne by done.
        destruct (results !! c'); simpl; [by rewrite Hz | done].
      * destruct (results !! c'); simpl; [by rewrite Hz | done].
    + destruct (results !! c'); simpl; [by rewrite Hz | done].
Qed.

Lemma count_candidates_add c results ids :
  foldl (count_candidate c) results ids
  = add_results (λ c' k, if decide (c = c') then occurrences k ids else 0)%nat
                results.
Proof.
  revert results. induction ids as [|cid ids IH]; intros results; simpl.
  - symmetry. apply add_results_zero. intros c' k. by case_decide.
  - rewrite IH, count_candidate_add, add_results_add.
    apply add_results_ext. intros c' k.
    unfold occurrences. rewrite filter_cons.
    repeat case_decide; simpl; try lia; naive_solver.
Qed.

Lemma count_selection_add results s :
  count_selection results s
  = add_results (λ c k, selection_count c k s) results.
Proof.
  unfold count_selection.
  destruct (results !! contestId s) as [inner|] eqn:Hin.
  - rewrite count_candidates_add. done.
  - apply map_eq. intros c. rewrite add_results_lookup.
    destruct (decide (c = contestId s)) as [->|Hc].
    + by rewrite Hin.
    + destruct (results !! c) as [inner|]; simpl; [|done].
      f_equal. rewrite <- (add_counts_zero inner) at 1.
      apply add_counts_ext. intros k. unfold selection_count.
      by rewrite decide_False by done.
Qed.

Lemma count_vote_add results vote :
  count_vote results vote = add_results (λ c k, vote_count c k vote) results.
Proof.
  unfold count_vote, vote_count.
  generalize (selections vote). intros sels. revert results.
  induction sels as [|s sels IH]; intros results; simpl.
  - symmetry. by apply add_results_zero.
  - rewrite IH, count_selection_add, add_results_add. done.
Qed.

Lemma count_votes_add results vs :
  foldl count_vote results vs
  = add_results (λ c k, selected_count c k vs) results.
Proof.
  unfold selected_count. revert results.
  induction vs as [|v vs IH]; intros results; simpl.
  - symmetry. by apply add_results_zero.
  - rewrite IH, count_vote_add, add_results_add. done.
Qed.

Lemma tally_run_results_add cs vs :
  tally_run_results cs vs
  = add_results (λ c k, selected_count c k vs) (init_results cs).
Proof. apply count_votes_add. Qed.

Lemma tally_run_results_count_of cs vs c k :
  count_of (tally_run_results cs vs) c k
  = (λ n, (n + selected_count c k vs)%nat) <$> count_of (init_results cs) c k.
Proof. rewrite tally_run_results_add. apply count_of_add_results. Qed.

Lemma tally_run_results_is_Some cs vs c :
  is_Some (tally_run_results cs vs !! c) ↔ c ∈ contest_id <$> cs.
Proof.
  rewrite tally_run_results_add, add_results_lookup, fmap_is_Some.
  apply init_results_is_Some.
Qed.

Lemma selected_count_app c k vs1 vs2 :
  selected_count c k (vs1 ++ vs2)
  = (selected_count c k vs1 + selected_count c k vs2)%nat.
Proof. apply sum_list_with_app. Qed.

Lemma selected_count_perm c k vs vs' :
  vs ≡ₚ vs' → selected_count c k vs = selected_count c k vs'.
Proof. intros Hp. unfold selected_count. by rewrite Hp. Qed.

Lemma vote_count_only c k vote pre s post :
  selections vote = (pre ++ s :: post)%list →
  contestId s = c →
  Forall (λ s', contestId s' ≠ c) (pre ++ post)%list →
  vote_count c k vote = occurrences k (selectedCandidateIds s).
Proof.
  intros Hsel Hc Hothers. unfold vote_count. rewrite Hsel.
  apply Forall_app in Hothers as [Hpre Hpost].
  assert (Hz : ∀ l, Forall (λ s', contestId s' ≠ c) l →
               sum_list_with (selection_count c k) l = 0%nat).
  { induction 1 as [|s' l Hs' _ IH]; simpl; [done|].
    unfold selection_count at 1. rewrite decide_False by done. by rewrite IH. }
  rewrite sum_list_with_app. simpl.
  rewrite (Hz _ Hpre), (Hz _ Hpost).
  unfold selection_count. rewrite decide_True by done. lia.
Qed.

(** The ordinary loops compute the reference tally on a schema whose
    contest ids are distinct. *)
Lemma plain_tally_reference cs vs c k :
  NoDup (contest_id <$> cs) →
  (is_Some (tally_run_results cs vs !! c) ↔ known_contest cs c = true)
  ∧ count_of (tally_run_results cs vs) c k = tally_reference cs vs c k.
Proof.
  intros Hnd. split.
  - rewrite tally_run_results_is_Some. unfold known_contest.
    by rewrite bool_decide_eq_true.
  - rewrite tally_run_results_count_of, init_results_count_of by done.
    unfold tally_reference. by destruct (known_candidate cs c k).
Qed.

(** The ordinary loops do not depend on the order of the votes. *)
Lemma plain_tally_permutation cs vs vs' :
  vs ≡ₚ vs' →
  tally_run_results cs vs = tally_run_results cs vs'
  ∧ results_view_results cs vs = results_view_results cs vs'.
Proof.
  intros Hp.
  assert (tally_run_results cs vs = tally_run_results cs vs') as Heq.
  { rewrite !tally_run_results_add. apply add_results_ext.
    intros c k. by apply selected_count_perm. }
  split; [exact Heq|].
  exact Heq.
Qed.

(** The ordinary loops do not deduplicate the ids of a selection. *)
Lemma plain_tally_repeated_ids cs vs1 vs2 vote pre s post k n x :
  selections vote = (pre ++ s :: post)%list →
  Forall (λ s', contestId s' ≠ contestId s) (pre ++ post)%list →
  occurrences k (selectedCandidateIds s) = n →
  count_of (tally_run_results cs (vs1 ++ vs2)) (contestId s) k = Some x →
  count_of (tally_run_results cs (vs1 ++ vote :: vs2)) (contestId s) k
  = Some (x + n)%nat
  ∧ count_of (results_view_results cs (vs1 ++ vote :: vs2)) (contestId s) k
    = Some (x + n)%nat.
Proof.
  intros Hsel Hothers Hn Hx.
  change (results_view_results cs (vs1 ++ vote :: vs2))
    with (tally_run_results cs (vs1 ++ vote :: vs2)).
  rewrite tally_run_results_count_of in Hx |- *.
  destruct (count_of (init_results cs) (contestId s) k) as [z|];
    simpl in *; [|done].
  injection Hx as <-.
  rewrite !selected_count_app. simpl.
  change (selected_count (contestId s) k (vote :: vs2))
    with (vote_count (contestId s) k vote
          + selected_count (contestId s) k vs2)%nat.
  rewrite (vote_count_only _ _ _ _ _ _ Hsel eq_refl Hothers), Hn.
  split; f_equal; lia.
Qed.


(** * The loops on the objects: on ordinary ids they are the ordinary loops *)

Lemma plain_own_lookup op (results : Results) c :
  own (plain op results) !! c
  = (λ inner : gmap string nat, Num <$> inner) <$> results !! c.
Proof. unfold plain. simpl. apply lookup_fmap. Qed.

Lemma plain_insert op (results : Results) c (inner : gmap string nat) :
  set_own (<[c := Num <$> inner]> (own (plain op results))) (plain op results)
  = plain op (<[c := inner]> results).
Proof. unfold plain, set_own. simpl. by rewrite fmap_insert. Qed.

Lemma get_results_plain op (results : Results) key :
  key ≠ "__proto__" →
  get_results (plain op results) key
  = match results !! key with
    | Some _ => Some (RInner key)
    | None => RVal <$> op !! key
    end.
Proof.
  intros Hkey. unfold get_results. rewrite decide_False by done.
  rewrite plain_own_lookup. by destruct (results !! key).
Qed.

Lemma js_zero_candidate_plain op (results : Results) c inner candidate :
  c ≠ "__proto__" →
  cand_id candidate ≠ "__proto__" →
  js_zero_candidate c (Normal (plain op (<[c := inner]> results))) candidate
  = Normal (plain op (<[c := <[cand_id candidate := 0%nat]> inner]> results)).
Proof.
  intros Hc Hk. unfold js_zero_candidate. simpl.
  rewrite get_results_plain, lookup_insert_eq by done.
  unfold set_prop. rewrite decide_False by done.
  rewrite plain_own_lookup, lookup_insert_eq. simpl.
  unfold plain, set_own. simpl. do 2 f_equal.
  by rewrite !fmap_insert, insert_insert_eq.
Qed.

Lemma js_zero_candidates_plain op (results : Results) c inner cands :
  c ≠ "__proto__" →
  Forall (λ k, k ≠ "__proto__") (cand_id <$> cands) →
  foldl (js_zero_candidate c) (Normal (plain op (<[c := inner]> results)))
        cands
  = Normal (plain op
      (<[c := foldl (λ m cand, <[cand_id cand := 0%nat]> m) inner cands]>
         results)).
Proof.
  intros Hc. revert inner.
  induction cands as [|candidate cands IH]; intros inner Hks; [done|].
  rewrite fmap_cons in Hks. apply Forall_cons in Hks as [Hk Hks].
  cbn [foldl]. rewrite js_zero_candidate_plain by done. by apply IH.
Qed.

Lemma js_init_contest_plain op (results : Results) contest :
  contest_id contest ≠ "__proto__" →
  Forall (λ k, k ≠ "__proto__") (cand_id <$> candidates contest) →
  js_init_contest (Normal (plain op results)) contest
  = Normal (plain op (init_contest results contest)).
Proof.
  intros Hc Hks. rewrite init_contest_insert.
  unfold js_init_contest, and_then.
  rewrite decide_False by done. unfold zero_counts.
  replace (set_own (<[contest_id contest := ∅]> (own (plain op results)))
                   (plain op results))
    with (plain op (<[contest_id contest := ∅]> results))
    by (unfold plain, set_own; simpl; by rewrite fmap_insert, fmap_empty).
  by apply js_zero_candidates_plain.
Qed.

Lemma schema_ids_cons contest cs :
  schema_ids (contest :: cs)
  = ((contest_id contest :: (cand_id <$> candidates contest))
     ++ schema_ids cs)%list.
Proof. done. Qed.

Lemma js_init_results_fold op (results : Results) cs :
  Forall (λ k, k ≠ "__proto__") (schema_ids cs) →
  foldl js_init_contest (Normal (plain op results)) cs
  = Normal (plain op (foldl init_contest results cs)).
Proof.
  revert results. induction cs as [|contest cs IH]; intros results Hids.
  - done.
  - rewrite schema_ids_cons in Hids.
    apply Forall_app in Hids as [Hhere Hrest].
    apply Forall_cons in Hhere as [Hc Hks].
    cbn [foldl]. rewrite js_init_contest_plain by done. by apply IH.
Qed.

Lemma js_init_results_plain op cs :
  Forall (λ k, k ≠ "__proto__") (schema_ids cs) →
  js_init_results op cs = Normal (plain op (init_results cs)).
Proof.
  intros Hids. unfold js_init_results, init_results.
  rewrite <- (js_init_results_fold op ∅ cs Hids).
  unfold plain. simpl. by rewrite fmap_empty.
Qed.

Lemma count_candidate_is_Some c (results : Results) cid :
  is_Some (results !! c) → is_Some (count_candidate c results cid !! c).
Proof.
  intros [inner Hin]. unfold count_candidate. rewrite Hin.
  destruct (inner !! cid); [rewrite lookup_insert_eq|rewrite Hin]; eauto.
Qed.

Lemma js_count_candidate_plain op (results : Results) c cid :
  is_Some (results !! c) →
  c ≠ "__proto__" →
  ordinary op cid →
  js_count_candidate c (Normal (plain op results)) cid
  = Normal (plain op (count_candidate c results cid)).
Proof.
  intros [inner Hin] Hc [Hcid Hop]. unfold js_count_candidate. simpl.
  rewrite get_results_plain, Hin by done.
  unfold get_prop. rewrite plain_own_lookup, Hin. simpl.
  rewrite decide_False by done.
  unfold lookup_chain, count_candidate. rewrite Hin, lookup_fmap.
  destruct (inner !! cid) as [n|]; simpl.
  - unfold set_prop. rewrite decide_False by done.
    rewrite plain_own_lookup, Hin. simpl.
    unfold plain, set_own. simpl. do 2 f_equal.
    by rewrite !fmap_insert.
  - by rewrite Hop.
Qed.

Lemma js_count_candidates_plain op (results : Results) c cids :
  is_Some (results !! c) →
  c ≠ "__proto__" →
  Forall (ordinary op) cids →
  foldl (js_count_candidate c) (Normal (plain op results)) cids
  = Normal (plain op (foldl (count_candidate c) results cids)).
Proof.
  revert results. induction cids as [|cid cids IH]; intros results Hin Hc Hcids.
  - done.
  - apply Forall_cons in Hcids as [Hcid Hcids]. cbn [foldl].
    rewrite js_count_candidate_plain by done.
    apply IH; [by apply count_candidate_is_Some | done | done].
Qed.

Lemma js_count_selection_plain op (results : Results) s :
  Forall (ordinary op) (contestId s :: selectedCandidateIds s) →
  js_count_selection (Normal (plain op results)) s
  = Normal (plain op (count_selection results s)).
Proof.
  intros [[Hc Hop] Hcids]%Forall_cons.
  unfold js_count_selection, count_selection. simpl.
  rewrite get_results_plain by done.
  destruct (results !! contestId s) as [inner|] eqn:Hin; simpl.
  - by apply js_count_candidates_plain.
  - by rewrite Hop.
Qed.

Lemma js_count_vote_plain op (results : Results) vote :
  Forall (ordinary op)
         (selections vote ≫= λ s, contestId s :: selectedCandidateIds s) →
  js_count_vote (Normal (plain op results)) vote
  = Normal (plain op (count_vote results vote)).
Proof.
  unfold js_count_vote, count_vote.
  generalize (selections vote). intros sels. revert results.
  induction sels as [|s sels IH]; intros results Hids; [done|].
  rewrite bind_cons in Hids. apply Forall_app in Hids as [Hs Hsels].
  cbn [foldl]. rewrite js_count_selection_plain by done. by apply IH.
Qed.

Lemma js_count_votes_plain op (results : Results) vs :
  Forall (ordinary op) (vote_ids vs) →
  foldl js_count_vote (Normal (plain op results)) vs
  = Normal (plain op (foldl count_vote results vs)).
Proof.
  revert results. induction vs as [|vote vs IH]; intros results Hids; [done|].
  unfold vote_ids in Hids. rewrite bind_cons in Hids.
  apply Forall_app in Hids as [Hvote Hvs].
  cbn [foldl]. rewrite js_count_vote_plain by done. by apply IH.
Qed.

(** On ordinary ids the loops on the objects end normally, with the
    counts of the ordinary loops, and leave [Object.prototype] as it
    was. *)
Lemma js_tally_run_plain op cs vs :
  Forall (λ k, k ≠ "__proto__") (schema_ids cs) →
  Forall (ordinary op) (vote_ids vs) →
  js_tally_run op cs vs = Normal (plain op (tally_run_results cs vs)).
Proof.
  intros Hschema Hvotes. unfold js_tally_run, tally_run_results.
  rewrite js_init_results_plain by done. by apply js_count_votes_plain.
Qed.

Lemma js_results_view_eq op cs vs :
  js_results_view op cs vs = js_tally_run op cs vs.
Proof. reflexivity. Qed.

Lemma tallied_plain op (results : Results) c k :
  tallied (Normal (plain op results)) c k = Num <$> count_of results c k.
Proof.
  unfold tallied, count_of. simpl. rewrite lookup_fmap.
  destruct (results !! c) as [inner|]; simpl; [|done].
  by rewrite lookup_fmap.
Qed.

(** * The tally on the objects *)

(** Side conditions on the ids of a concrete schema or vote list. *)
Ltac each_id :=
  simpl; repeat first [ apply Forall_nil_2
                      | apply Forall_cons_2; [by vm_compute|] ].

Lemma vote_ids_app vs1 vs2 :
  vote_ids (vs1 ++ vs2)%list = (vote_ids vs1 ++ vote_ids vs2)%list.
Proof. unfold vote_ids. by rewrite bind_app. Qed.

Lemma vote_ids_cons vote vs :
  vote_ids (vote :: vs)
  = ((selections vote ≫= λ s, contestId s :: selectedCandidateIds s)
     ++ vote_ids vs)%list.
Proof. done. Qed.

Lemma vote_ids_perm vs vs' : vs ≡ₚ vs' → vote_ids vs ≡ₚ vote_ids vs'.
Proof. intros Hp. unfold vote_ids. by rewrite Hp. Qed.

Lemma vote_ids_without op vs1 vote vs2 :
  Forall (ordinary op) (vote_ids (vs1 ++ vote :: vs2)%list) →
  Forall (ordinary op) (vote_ids (vs1 ++ vs2)%list).
Proof.
  rewrite !vote_ids_app, vote_ids_cons, !Forall_app. tauto.
Qed.

Lemma sent_plain_is_Some op (results : Results) c :
  is_Some (sent (Normal (plain op results)) ≫= λ m, m !! c)
  ↔ is_Some (results !! c).
Proof.
  change (sent (Normal (plain op results)) ≫= λ m, m !! c)
    with (own (plain op results) !! c).
  by rewrite plain_own_lookup, fmap_is_Some.
Qed.

(** C4 (as amended).  On a schema whose contest ids are distinct and
    whose ids are not [__proto__], and on votes that name only ordinary
    ids, the tally loop ends normally, leaves [Object.prototype] as it
    was, and computes the reference tally: the result has an entry for a contest id exactly when
    the contest is known, and it holds a count for a candidate id exactly
    when that is a known candidate of the contest, the count being the
    number of times the id is selected for that contest over all votes;
    selections for unknown contests and unknown candidate ids contribute
    nothing. *)
Theorem tally_run_reference_on_ordinary_ids op cs vs c k :
  NoDup (contest_id <$> cs) →
  Forall (λ x, x ≠ "__proto__") (schema_ids cs) →
  Forall (ordinary op) (vote_ids vs) →
  (∃ h, js_tally_run op cs vs = Normal h
        ∧ proto h = None ∧ objectPrototype h = op)
  ∧ (is_Some (sent (js_tally_run op cs vs) ≫= λ m, m !! c)
     ↔ known_contest cs c = true)
  ∧ tallied (js_tally_run op cs vs) c k = Num <$> tally_reference cs vs c k.
Proof.
  intros Hnd Hcs Hvs.
  rewrite (js_tally_run_plain op cs vs Hcs Hvs).
  destruct (plain_tally_reference cs vs c k Hnd) as [Hentry Hcount].
  split; [by eexists|]. split.
  - by rewrite sent_plain_is_Some.
  - by rewrite tallied_plain, Hcount.
Qed.

(** C10.  Candidate ids are not deduplicated within a selection: on a
    schema whose ids are not [__proto__] and votes that name only ordinary
    ids, a vote whose selection for a contest lists a candidate that has a
    count [n] times raises that count by [n], in the admin tally and in
    the public results view. *)
Theorem tally_counts_repeated_ids op cs vs1 vs2 vote pre s post k n x :
  Forall (λ x, x ≠ "__proto__") (schema_ids cs) →
  Forall (ordinary op) (vote_ids (vs1 ++ vote :: vs2)%list) →
  selections vote = (pre ++ s :: post)%list →
  Forall (λ s', contestId s' ≠ contestId s) (pre ++ post)%list →
  occurrences k (selectedCandidateIds s) = n →
  tallied (js_tally_run op cs (vs1 ++ vs2)) (contestId s) k = Some (Num x) →
  tallied (js_tally_run op cs (vs1 ++ vote :: vs2)) (contestId s) k
  = Some (Num (x + n))
  ∧ tallied (js_results_view op cs (vs1 ++ vote :: vs2)) (contestId s) k
    = Some (Num (x + n)).
Proof.
  intros Hcs Hvs Hsel Hothers Hn Hx.
  change (js_results_view op cs (vs1 ++ vote :: vs2))
    with (js_tally_run op cs (vs1 ++ vote :: vs2)).
  rewrite (js_tally_run_plain op cs _ Hcs Hvs), tallied_plain.
  rewrite (js_tally_run_plain op cs _ Hcs (vote_ids_without _ _ _ _ Hvs)),
    tallied_plain in Hx.
  destruct (count_of (tally_run_results cs (vs1 ++ vs2)) (contestId s) k)
    as [y|] eqn:Hy; simplify_eq/=.
  destruct (plain_tally_repeated_ids cs vs1 vs2 vote pre s post k _ x
              Hsel Hothers eq_refl Hy) as [-> _].
  done.
Qed.

(** C5.  The tally depends on the order of the votes: a vote that names
    the contest [__proto__] and the candidate [toString] overwrites
    [Object.prototype.toString] with a string, which a vote for the
    candidate [toString] of contest C1 then reads.  With the two votes in
    one order C1 gets the entry [toString] with the text of the function
    followed by 11, in the other order followed by 1. *)
Theorem tally_depends_on_vote_order :
  [Odd.voteProto; Odd.voteToString] ≡ₚ [Odd.voteToString; Odd.voteProto]
  ∧ tallied (js_tally_run pristine Odd.schema
               [Odd.voteProto; Odd.voteToString]) "C1" "toString"
    = Some (Str "function toString() { [native code] }11")
  ∧ tallied (js_tally_run pristine Odd.schema
               [Odd.voteToString; Odd.voteProto]) "C1" "toString"
    = Some (Str "function toString() { [native code] }1")
  ∧ sent (js_tally_run pristine Odd.schema
            [Odd.voteProto; Odd.voteToString])
    ≠ sent (js_tally_run pristine Odd.schema
              [Odd.voteToString; Odd.voteProto]).
Proof.
  split; [apply perm_swap|].
  split; [by vm_compute|]. split; [by vm_compute|].
  intros Heq.
  assert (tallied (js_tally_run pristine Odd.schema
                     [Odd.voteProto; Odd.voteToString]) "C1" "toString"
          = tallied (js_tally_run pristine Odd.schema
                       [Odd.voteToString; Odd.voteProto]) "C1" "toString")
    as Ht by (unfold tallied; by rewrite Heq).
  vm_compute in Ht. discriminate Ht.
Qed.

(** C4, counterexample.  The tally is not the reference tally: a vote for
    the unknown candidate [toString] of C1 gives C1 an entry [toString]
    that holds a string; of two contests with the same id the candidates
    of the first have no count; and a contest with the id [__proto__] has
    no entry at all. *)
Lemma tally_differs_from_reference :
  (tally_reference Odd.schema [Odd.voteToString] "C1" "toString" = None
   ∧ tallied (js_tally_run pristine Odd.schema [Odd.voteToString])
       "C1" "toString"
     = Some (Str "function toString() { [native code] }1"))
  ∧ (tally_reference Odd.twice [] "C1" "A" = Some 0%nat
     ∧ tallied (js_tally_run pristine Odd.twice []) "C1" "A" = None)
  ∧ (known_contest Odd.protoContest "__proto__" = true
     ∧ sent (js_tally_run pristine Odd.protoContest []) = Some ∅).
Proof. repeat split; by vm_compute. Qed.

(** * Properties of the middleware *)

Lemma authMiddleware_verified env sub db u :
  Voter_findById sub db = Some u →
  authMiddleware env (Verified sub) db = (Next u, db).
Proof.
  intros Hu. unfold authMiddleware, bind, get_db, ret. by rewrite Hu.
Qed.

Lemma Voter_findById_user_id sub db u :
  Voter_findById sub db = Some u → user_id u = sub.
Proof.
  unfold Voter_findById. intros Hu.
  destruct (list_find _ _) as [[i u']|] eqn:Hf; simpl in Hu; [|done].
  injection Hu as <-. by apply list_find_Some in Hf as (_ & ? & _).
Qed.

Lemma electionOpenMiddleware_spec env db e :
  Election_findOne db = Some e →
  electionOpenMiddleware env db
  = (if isAcceptingBallots e (now env) then Next e else Done NotEligible, db).
Proof.
  intros He. unfold electionOpenMiddleware, bind, get_db, ret, reply.
  rewrite He. unfold isAcceptingBallots, NotEligible.
  destruct (isOpen e); simpl; [|done].
  destruct (Z.ltb_spec (now env) (startAt e));
    destruct (Z.leb_spec (startAt e) (now env)); try lia; simpl; [done|].
  rewrite Z.gtb_ltb.
  destruct (Z.ltb_spec (endAt e) (now env));
    destruct (Z.leb_spec (now env) (endAt e)); try lia; done.
Qed.

Lemma oneBallotOnlyMiddleware_new env u e db :
  assignments db !! (user_id u, election_id e) = None →
  oneBallotOnlyMiddleware env u e db
  = (Next {| issuedAt := now env; votedAt := None |},
     set_assignments
       (<[(user_id u, election_id e) :=
            {| issuedAt := now env; votedAt := None |}]> (assignments db))
       db).
Proof.
  intros Hnone.
  unfold oneBallotOnlyMiddleware, bind, get_db, ret, modify_db.
  by rewrite Hnone.
Qed.

Lemma oneBallotOnlyMiddleware_issued env u e db r :
  assignments db !! (user_id u, election_id e) = Some r →
  votedAt r = None →
  oneBallotOnlyMiddleware env u e db = (Next r, db).
Proof.
  intros Hr Hv.
  unfold oneBallotOnlyMiddleware, bind, get_db, ret.
  by rewrite Hr, Hv.
Qed.

Lemma oneBallotOnlyMiddleware_voted env u e db r t :
  assignments db !! (user_id u, election_id e) = Some r →
  votedAt r = Some t →
  oneBallotOnlyMiddleware env u e db = (Done AlreadyVoted, db).
Proof.
  intros Hr Hv.
  unfold oneBallotOnlyMiddleware, bind, get_db, ret, reply.
  by rewrite Hr, Hv.
Qed.

(** ** What a request leaves alone *)

Ltac unfold_routes :=
  unfold handle, serve, route, ballot_get, vote_submit, admin_election_setup,
    admin_election_open, admin_election_close, admin_tally_run,
    admin_results_publish, admin_audit_logs, results_view, auditLogger,
    the_election,
    authMiddleware, adminMiddleware, electionOpenMiddleware,
    oneBallotOnlyMiddleware, AnonymousVote_create, AuditLog_create,
    Election_create, Election_save, BallotAssignment_save_votedAt,
    bind, ret, reply, reject, get_db, modify_db.

Lemma handle_voters env req db :
  voters (handle env req db).2 = voters db.
Proof.
  destruct req; unfold_routes; simpl;
    repeat (case_match; simplify_eq/=; try done).
Qed.

Lemma Voter_findById_voters sub db db' :
  voters db' = voters db → Voter_findById sub db' = Voter_findById sub db.
Proof. unfold Voter_findById. by intros ->. Qed.

Lemma run_snoc db trace er :
  run db (trace ++ [er]) = (handle er.1 er.2 (run db trace)).2.
Proof. unfold run. by rewrite foldl_app. Qed.

Lemma run_voters db trace : voters (run db trace) = voters db.
Proof.
  induction trace as [|er trace IH] using rev_ind; [done|].
  by rewrite run_snoc, handle_voters.
Qed.

(** An assignment that records a completed vote is never touched again. *)
Lemma handle_keeps_voted env req db key r t :
  assignments db !! key = Some r →
  votedAt r = Some t →
  assignments (handle env req db).2 !! key = Some r.
Proof.
  intros Hr Ht.
  destruct req; unfold_routes; simpl;
    repeat (case_match; simplify_eq/=; try done).
  all: match goal with
       | |- context [ (?u, ?e) ] =>
           destruct (decide (key = (u, e))) as [->|Hne]
       end.
  all: rewrite ?lookup_alter_eq, ?lookup_alter_ne, ?lookup_insert_eq,
         ?lookup_insert_ne by done.
  all: try done; congruence.
Qed.

Lemma run_keeps_voted db trace key r t :
  assignments db !! key = Some r →
  votedAt r = Some t →
  assignments (run db trace) !! key = Some r.
Proof.
  intros Hr Ht.
  induction trace as [|er trace IH] using rev_ind; [done|].
  rewrite run_snoc. by eapply handle_keeps_voted.
Qed.


(** * Eligibility *)

Lemma isAcceptingBallots_true e t :
  isAcceptingBallots e t = true
  ↔ isOpen e = true ∧ (startAt e ≤ t ≤ endAt e)%Z.
Proof.
  unfold isAcceptingBallots.
  rewrite !andb_true_iff, !Z.leb_le. naive_solver.
Qed.

Lemma ballot_get_not_eligible env sub u e db :
  Voter_findById sub db = Some u →
  Election_findOne db = Some e →
  isAcceptingBallots e (now env) = false →
  handle env (BallotGet (Verified sub)) db = (NotEligible, db).
Proof.
  intros Hu He Hacc.
  unfold handle, serve, route, ballot_get, bind.
  rewrite (authMiddleware_verified _ _ _ _ Hu).
  by rewrite (electionOpenMiddleware_spec _ _ _ He), Hacc.
Qed.

Lemma vote_submit_not_eligible env sub u e sels db :
  Voter_findById sub db = Some u →
  Election_findOne db = Some e →
  isAcceptingBallots e (now env) = false →
  handle env (VoteSubmit (Verified sub) sels) db = (NotEligible, db).
Proof.
  intros Hu He Hacc.
  unfold handle, serve, route, vote_submit, bind.
  rewrite (authMiddleware_verified _ _ _ _ Hu).
  by rewrite (electionOpenMiddleware_spec _ _ _ He), Hacc.
Qed.

Lemma ballot_get_eligible env sub u e db :
  Voter_findById sub db = Some u →
  Election_findOne db = Some e →
  isAcceptingBallots e (now env) = true →
  (handle env (BallotGet (Verified sub)) db).1 ≠ NotEligible.
Proof.
  intros Hu He Hacc.
  unfold handle, serve, route, ballot_get, bind.
  rewrite (authMiddleware_verified _ _ _ _ Hu).
  rewrite (electionOpenMiddleware_spec _ _ _ He), Hacc.
  unfold oneBallotOnlyMiddleware, auditLogger, AuditLog_create,
    bind, ret, reply, reject, get_db, modify_db, NotEligible.
  repeat (case_match; simplify_eq/=; try done).
Qed.

Lemma vote_submit_eligible env sub u e sels db :
  Voter_findById sub db = Some u →
  Election_findOne db = Some e →
  isAcceptingBallots e (now env) = true →
  (handle env (VoteSubmit (Verified sub) sels) db).1 ≠ NotEligible.
Proof.
  intros Hu He Hacc.
  unfold handle, serve, route, vote_submit, bind.
  rewrite (authMiddleware_verified _ _ _ _ Hu).
  rewrite (electionOpenMiddleware_spec _ _ _ He), Hacc.
  unfold oneBallotOnlyMiddleware, AnonymousVote_create, AuditLog_create,
    BallotAssignment_save_votedAt,
    bind, ret, reply, reject, get_db, modify_db, NotEligible.
  repeat (case_match; simplify_eq/=; try done).
Qed.

(** C6.  With an election configured, the eligibility gate lets a request
    through at time [now] exactly when [isOpen] holds and
    [startAt ≤ now ≤ endAt], both bounds included; otherwise it answers
    "Election not open", and so do the ballot request and the vote
    submission of any authenticated voter, leaving the database as it
    was, whatever [isOpen] says.  Inside the window neither route
    answers "Election not open". *)
Theorem eligibility_is_window_check env db e :
  Election_findOne db = Some e →
  let accepting := isOpen e = true ∧ (startAt e ≤ now env ≤ endAt e)%Z in
  (electionOpenMiddleware env db = (Next e, db) ↔ accepting)
  ∧ (isAcceptingBallots e (now env) = true ↔ accepting)
  ∧ (¬ accepting →
     electionOpenMiddleware env db = (Done NotEligible, db)
     ∧ ∀ sub u sels, Voter_findById sub db = Some u →
         handle env (BallotGet (Verified sub)) db = (NotEligible, db)
         ∧ handle env (VoteSubmit (Verified sub) sels) db
           = (NotEligible, db))
  ∧ (accepting →
     ∀ sub u sels, Voter_findById sub db = Some u →
       (handle env (BallotGet (Verified sub)) db).1 ≠ NotEligible
       ∧ (handle env (VoteSubmit (Verified sub) sels) db).1 ≠ NotEligible).
Proof.
  intros He accepting.
  pose proof (isAcceptingBallots_true e (now env)) as Hiff.
  fold accepting in Hiff.
  rewrite (electionOpenMiddleware_spec _ _ _ He).
  destruct (isAcceptingBallots e (now env)) eqn:Hacc.
  - assert accepting as Ha by by apply Hiff.
    split_and!; [done | done | done |].
    intros _ sub u sels Hu. split.
    + by eapply ballot_get_eligible.
    + by eapply vote_submit_eligible.
  - assert (¬ accepting) as Hna by (rewrite <- Hiff; done).
    split_and!; [ | done | | done].
    + split; [done | by intros ?].
    + intros _. split; [done|]. intros sub u sels Hu. split.
      * by eapply ballot_get_not_eligible.
      * by eapply vote_submit_not_eligible.
Qed.

(** * The ballot ledger *)

Lemma ballot_get_assignments env sub u e db :
  Voter_findById sub db = Some u →
  Election_findOne db = Some e →
  isAcceptingBallots e (now env) = true →
  let key := (sub, election_id e) in
  assignments (handle env (BallotGet (Verified sub)) db).2
  = match assignments db !! key with
    | Some _ => assignments db
    | None => <[key := {| issuedAt := now env; votedAt := None |}]>
                (assignments db)
    end.
Proof.
  intros Hu He Hacc key.
  pose proof (Voter_findById_user_id _ _ _ Hu) as Hid.
  unfold handle, serve, route, ballot_get, bind.
  rewrite (authMiddleware_verified _ _ _ _ Hu).
  rewrite (electionOpenMiddleware_spec _ _ _ He), Hacc.
  unfold oneBallotOnlyMiddleware, auditLogger, AuditLog_create,
    bind, ret, reply, reject, get_db, modify_db.
  rewrite Hid. fold key.
  repeat (case_match; simplify_eq/=; try done).
Qed.

Lemma ballot_get_reply env sub u e db r :
  Voter_findById sub db = Some u →
  Election_findOne db = Some e →
  isAcceptingBallots e (now env) = true →
  assignments db !! (sub, election_id e) = r →
  (∀ a, r = Some a → votedAt a = None) →
  auditWriteOk env = true →
  (handle env (BallotGet (Verified sub)) db).1
  = Reply 200 (BallotBody (election_id e) (election_name e) (contests e)).
Proof.
  intros Hu He Hacc Hr Hv Hok.
  pose proof (Voter_findById_user_id _ _ _ Hu) as Hid.
  unfold handle, serve, route, ballot_get, bind.
  rewrite (authMiddleware_verified _ _ _ _ Hu).
  rewrite (electionOpenMiddleware_spec _ _ _ He), Hacc.
  unfold oneBallotOnlyMiddleware, auditLogger, AuditLog_create,
    bind, ret, reply, reject, get_db, modify_db.
  rewrite Hid, Hr, Hok.
  destruct r as [a|]; simpl; [|done].
  by rewrite (Hv a eq_refl).
Qed.

Lemma handle_elections_ballot_get env a db :
  elections (handle env (BallotGet a) db).2 = elections db.
Proof.
  unfold_routes; simpl; repeat (case_match; simplify_eq/=; try done).
Qed.

(** A request leaves [issuedAt] of a stored assignment alone, and
    [votedAt] too unless it sets it. *)
Lemma handle_assignment_step env req db key r :
  assignments db !! key = Some r →
  ∃ r', assignments (handle env req db).2 !! key = Some r'
        ∧ issuedAt r' = issuedAt r
        ∧ (votedAt r' = votedAt r ∨ is_Some (votedAt r')).
Proof.
  intros Hr.
  destruct req; unfold_routes; simpl;
    repeat (case_match; simplify_eq/=; eauto).
  all: match goal with
       | |- context [ (?u, ?e) ] =>
           destruct (decide (key = (u, e))) as [->|Hne]
       end.
  all: rewrite ?lookup_alter_eq, ?lookup_alter_ne, ?lookup_insert_eq,
         ?lookup_insert_ne by done.
  all: simplify_eq/=; eauto 6.
  all: rewrite Hr; simpl; eauto 6.
Qed.

(** Assignments are never deleted. *)
Lemma run_keeps_assignment db trace key r :
  assignments db !! key = Some r →
  is_Some (assignments (run db trace) !! key).
Proof.
  intros Hr. induction trace as [|er trace IH] using rev_ind; [by eauto|].
  rewrite run_snoc. destruct IH as [m Hm].
  destruct (handle_assignment_step er.1 er.2 _ _ _ Hm) as (m' & ? & _).
  by eauto.
Qed.

(** An assignment that is still without [votedAt] after a run is the
    record that was there before the run. *)
Lemma run_unvoted_same db trace key r r' :
  assignments db !! key = Some r →
  assignments (run db trace) !! key = Some r' →
  votedAt r' = None →
  r' = r.
Proof.
  intros Hr. revert r'.
  induction trace as [|er trace IH] using rev_ind; intros r' Hr' Hnone.
  - simpl in Hr'. congruence.
  - rewrite run_snoc in Hr'.
    destruct (run_keeps_assignment db trace key r Hr) as [m Hm].
    destruct (handle_assignment_step er.1 er.2 _ _ _ Hm)
      as (m' & Hm' & Hissued & Hvoted).
    rewrite Hm' in Hr'. injection Hr' as ->.
    destruct Hvoted as [Hsame | [t Ht]]; [|congruence].
    rewrite Hnone in Hsame.
    rewrite <- (IH m Hm (eq_sym Hsame)).
    destruct r', m; simpl in *; congruence.
Qed.

(** C7.  Requesting a ballot is idempotent before voting.  The first
    eligible request of a voter without an assignment stores one with
    [issuedAt] the time of the request and [votedAt] null.  After any
    further requests that leave the voter without a completed vote, a
    second eligible request for that election finds that same assignment,
    hands the same record on and stores nothing new.  With the audit write
    going through, each of the two requests gets the ballot. *)
Theorem ballot_request_idempotent env1 env2 sub u e e2 db between :
  Voter_findById sub db = Some u →
  Election_findOne db = Some e →
  isAcceptingBallots e (now env1) = true →
  assignments db !! (sub, election_id e) = None →
  let issued := {| issuedAt := now env1; votedAt := None |} in
  let db1 := (handle env1 (BallotGet (Verified sub)) db).2 in
  let db2 := run db1 between in
  Election_findOne db2 = Some e2 →
  election_id e2 = election_id e →
  isAcceptingBallots e2 (now env2) = true →
  (∀ a, assignments db2 !! (sub, election_id e) = Some a →
        votedAt a = None) →
  let db3 := (handle env2 (BallotGet (Verified sub)) db2).2 in
  (oneBallotOnlyMiddleware env1 u e db).1 = Next issued
  ∧ assignments db1 = <[(sub, election_id e) := issued]> (assignments db)
  ∧ oneBallotOnlyMiddleware env2 u e2 db2 = (Next issued, db2)
  ∧ assignments db3 = assignments db2
  ∧ (auditWriteOk env1 = true →
     (handle env1 (BallotGet (Verified sub)) db).1
     = Reply 200 (BallotBody (election_id e) (election_name e) (contests e)))
  ∧ (auditWriteOk env2 = true →
     (handle env2 (BallotGet (Verified sub)) db2).1
     = Reply 200 (BallotBody (election_id e2) (election_name e2)
                             (contests e2))).
Proof.
  intros Hu He Hacc1 Hnone issued db1 db2 He2 Hsame Hacc2 Hunvoted db3.
  pose proof (Voter_findById_user_id _ _ _ Hu) as Hid.
  assert (assignments db1 = <[(sub, election_id e) := issued]> (assignments db))
    as Hdb1.
  { unfold db1. rewrite (ballot_get_assignments _ _ _ _ _ Hu He Hacc1).
    by rewrite Hnone. }
  assert (assignments db1 !! (sub, election_id e) = Some issued) as Hissued1.
  { rewrite Hdb1. apply lookup_insert_eq. }
  assert (Voter_findById sub db2 = Some u) as Hu2.
  { rewrite <- Hu. apply Voter_findById_voters.
    unfold db2, db1. by rewrite run_voters, handle_voters. }
  assert (assignments db2 !! (sub, election_id e) = Some issued) as Hissued2.
  { destruct (assignments db2 !! (sub, election_id e)) as [a|] eqn:Ha.
    - f_equal. eapply run_unvoted_same; [exact Hissued1 | exact Ha | auto].
    - destruct (run_keeps_assignment db1 between _ _ Hissued1) as [m Hm].
      unfold db2 in Ha. congruence. }
  split_and!.
  - rewrite oneBallotOnlyMiddleware_new by by rewrite Hid. done.
  - done.
  - apply oneBallotOnlyMiddleware_issued; [by rewrite Hid, Hsame | done].
  - unfold db3. rewrite (ballot_get_assignments _ _ _ _ _ Hu2 He2 Hacc2).
    by rewrite Hsame, Hissued2.
  - intros Hok. eapply ballot_get_reply; eauto. by intros a ?.
  - intros Hok. eapply ballot_get_reply; eauto.
    rewrite Hsame, Hissued2. intros a [= <-]. done.
Qed.

(** * Vote submission *)

Lemma receipt_fresh_existsb r vs :
  r ∉ receipt <$> vs →
  existsb (λ v, String.eqb (receipt v) r) vs = false.
Proof.
  intros Hfresh. apply not_true_is_false. intros Hex.
  apply existsb_exists in Hex as (v & Hin & Heq).
  apply String.eqb_eq in Heq. apply Hfresh. subst r.
  apply list_elem_of_fmap_2. by apply list_elem_of_In.
Qed.

(** What a submission does once it is past the three gates. *)
Lemma vote_submit_run env sub u e sels db :
  Voter_findById sub db = Some u →
  Election_findOne db = Some e →
  isAcceptingBallots e (now env) = true →
  (∀ a, assignments db !! (sub, election_id e) = Some a → votedAt a = None) →
  forallb SelectionSchema_valid sels = true →
  required (randomReceipt env) = true →
  randomReceipt env ∉ receipt <$> votes db →
  let res := handle env (VoteSubmit (Verified sub) sels) db in
  res.1 = (if auditWriteOk env
           then Reply 200 (ReceiptBody "Vote submitted" (randomReceipt env))
           else Rejected)
  ∧ votes res.2
    = (votes db ++ [ {| electionId := election_id e; selections := sels;
                       submittedAt := now env;
                       receipt := randomReceipt env |} ])%list
  ∧ (∃ a, assignments res.2 !! (sub, election_id e) = Some a
          ∧ votedAt a = Some (now env))
  ∧ auditLogs res.2
    = (if auditWriteOk env
       then (auditLogs db ++
               [ {| actor := Some (email (user_doc u));
                    actorId := Some sub;
                    action := "vote_submitted";
                    details := ReceiptDetails (randomReceipt env);
                    createdAt := now env |} ])%list
       else auditLogs db).
Proof.
  intros Hu He Hacc Hnot Hvalid Hreq Hfresh res. subst res.
  pose proof (Voter_findById_user_id _ _ _ Hu) as Hid.
  apply receipt_fresh_existsb in Hfresh.
  unfold handle, serve, route, vote_submit, bind.
  rewrite (authMiddleware_verified _ _ _ _ Hu).
  rewrite (electionOpenMiddleware_spec _ _ _ He), Hacc.
  unfold oneBallotOnlyMiddleware, AnonymousVote_create, AuditLog_create,
    BallotAssignment_save_votedAt,
    bind, ret, reply, reject, get_db, modify_db.
  rewrite Hid.
  destruct (assignments db !! (sub, election_id e)) as [a|] eqn:Ha; simpl.
  - rewrite (Hnot a eq_refl). simpl. rewrite Hvalid, Hreq, Hfresh. simpl.
    destruct (auditWriteOk env); simpl; rewrite ?Hid;
      (split_and!; [done | done | | done]);
      eexists; (split; [by rewrite lookup_alter_eq, Ha | done]).
  - rewrite Hvalid, Hreq, Hfresh. simpl.
    destruct (auditWriteOk env); simpl; rewrite ?Hid;
      (split_and!; [done | done | | done]);
      eexists; (split; [by rewrite lookup_alter_eq, lookup_insert_eq | done]).
Qed.

(** What a successful submission tells about the state it ran in. *)
Lemma vote_submit_success_inv env sub sels db body db' e :
  Election_findOne db = Some e →
  handle env (VoteSubmit (Verified sub) sels) db = (Reply 200 body, db') →
  is_Some (Voter_findById sub db)
  ∧ body = ReceiptBody "Vote submitted" (randomReceipt env)
  ∧ ∃ a, assignments db' !! (sub, election_id e) = Some a
         ∧ votedAt a = Some (now env).
Proof.
  intros He Hrun.
  unfold handle, serve, route, vote_submit, bind in Hrun.
  unfold authMiddleware at 1 in Hrun. unfold bind, get_db, ret, reply in Hrun.
  destruct (Voter_findById sub db) as [u|] eqn:Hu; [|done].
  pose proof (Voter_findById_user_id _ _ _ Hu) as Hid.
  rewrite (electionOpenMiddleware_spec _ _ _ He) in Hrun.
  destruct (isAcceptingBallots e (now env));
    [|unfold NotEligible in Hrun; simpl in Hrun; congruence].
  unfold oneBallotOnlyMiddleware, AnonymousVote_create, AuditLog_create,
    BallotAssignment_save_votedAt,
    bind, ret, reply, reject, get_db, modify_db in Hrun.
  rewrite Hid in Hrun.
  split; [done|].
  repeat (case_match; simplify_eq/=; try done).
  - split; [done|]. eexists.
    split; [rewrite lookup_alter_eq;
            match goal with
            | H : assignments _ !! _ = Some _ |- _ => by rewrite H
            end | done].
  - split; [done|]. eexists.
    split; [by rewrite lookup_alter_eq, lookup_insert_eq | done].
Qed.

(** Requests served one after the other: once a submission of a voter has
    succeeded, a later submission by the same voter, while that election
    is the one configured, leaves the database unchanged and is answered
    "Already voted" when the election is accepting ballots at that time,
    "Election not open" when it is not. *)
Lemma later_submission_served_alone
    env1 env2 sub sels1 sels2 db0 db1 body trace e e2 :
  Election_findOne db0 = Some e →
  handle env1 (VoteSubmit (Verified sub) sels1) db0 = (Reply 200 body, db1) →
  Election_findOne (run db1 trace) = Some e2 →
  election_id e2 = election_id e →
  (∃ a, assignments db1 !! (sub, election_id e) = Some a
        ∧ votedAt a = Some (now env1)
        ∧ assignments (run db1 trace) !! (sub, election_id e) = Some a)
  ∧ handle env2 (VoteSubmit (Verified sub) sels2) (run db1 trace)
    = (if isAcceptingBallots e2 (now env2) then AlreadyVoted else NotEligible,
       run db1 trace).
Proof.
  intros He Hrun He2 Hsame.
  destruct (vote_submit_success_inv _ _ _ _ _ _ _ He Hrun)
    as ([u Hu] & _ & a & Ha & Hvoted).
  pose proof (run_keeps_voted _ trace _ _ _ Ha Hvoted) as Hkept.
  split; [by exists a|].
  assert (Voter_findById sub (run db1 trace) = Some u) as Hu2.
  { rewrite <- Hu. apply Voter_findById_voters.
    rewrite run_voters.
    change db1 with (Reply 200 body, db1).2. rewrite <- Hrun.
    apply handle_voters. }
  pose proof (Voter_findById_user_id _ _ _ Hu2) as Hid.
  unfold handle, serve, route, vote_submit, bind.
  rewrite (authMiddleware_verified _ _ _ _ Hu2).
  rewrite (electionOpenMiddleware_spec _ _ _ He2).
  destruct (isAcceptingBallots e2 (now env2)); [|done].
  rewrite (oneBallotOnlyMiddleware_voted _ _ _ _ a (now env1)); [done | | done].
  by rewrite Hid, Hsame.
Qed.

(** C2 (as amended).  Selections are not checked against the election's
    contests.  A submission by an eligible voter who has not voted, whose
    selections pass the schema (every [contestId] non-empty) and whose
    receipt is new, succeeds and stores the selections just as submitted,
    whatever contest ids, candidate ids and numbers of selected ids they
    hold; contests left out are simply absent from the stored vote. *)
Theorem vote_submit_stores_selections_unchecked env sub u e sels db :
  Voter_findById sub db = Some u →
  Election_findOne db = Some e →
  isAcceptingBallots e (now env) = true →
  (∀ a, assignments db !! (sub, election_id e) = Some a → votedAt a = None) →
  forallb SelectionSchema_valid sels = true →
  required (randomReceipt env) = true →
  randomReceipt env ∉ receipt <$> votes db →
  auditWriteOk env = true →
  (handle env (VoteSubmit (Verified sub) sels) db).1
  = Reply 200 (ReceiptBody "Vote submitted" (randomReceipt env))
  ∧ votes (handle env (VoteSubmit (Verified sub) sels) db).2
    = (votes db ++ [ {| electionId := election_id e; selections := sels;
                       submittedAt := now env;
                       receipt := randomReceipt env |} ])%list.
Proof.
  intros Hu He Hacc Hnot Hvalid Hreq Hfresh Hok.
  destruct (vote_submit_run _ _ _ _ _ _ Hu He Hacc Hnot Hvalid Hreq Hfresh)
    as (Hout & Hvotes & _).
  rewrite Hok in Hout. done.
Qed.

(** Every successful submission leaves, in the audit log, an entry that
    names the voter and carries the receipt of the vote just stored. *)
Lemma vote_submit_audit_links env sub u e sels db :
  Voter_findById sub db = Some u →
  Election_findOne db = Some e →
  isAcceptingBallots e (now env) = true →
  (∀ a, assignments db !! (sub, election_id e) = Some a → votedAt a = None) →
  forallb SelectionSchema_valid sels = true →
  required (randomReceipt env) = true →
  randomReceipt env ∉ receipt <$> votes db →
  auditWriteOk env = true →
  audit_links (handle env (VoteSubmit (Verified sub) sels) db).2 u
    {| electionId := election_id e; selections := sels;
       submittedAt := now env; receipt := randomReceipt env |}.
Proof.
  intros Hu He Hacc Hnot Hvalid Hreq Hfresh Hok.
  pose proof (Voter_findById_user_id _ _ _ Hu) as Hid.
  destruct (vote_submit_run _ _ _ _ _ _ Hu He Hacc Hnot Hvalid Hreq Hfresh)
    as (_ & Hvotes & _ & Hlogs).
  rewrite Hok in Hlogs. unfold audit_links.
  rewrite Hvotes, Hlogs. split; [set_solver|].
  eexists. split; [apply elem_of_app; right; apply list_elem_of_singleton; done|].
  simpl. by rewrite Hid.
Qed.

(** * Publishing and the audit trail *)

Lemma Election_save_findOne e e' db :
  Election_findOne db = Some e →
  election_id e' = election_id e →
  Election_findOne (Election_save e' db).2 = Some e'.
Proof.
  unfold Election_findOne, Election_save, modify_db. simpl.
  destruct (elections db) as [|x rest]; simpl; [done|].
  intros [= ->] Hid. by rewrite decide_True.
Qed.

(** C8 (as amended).  Publishing has no precondition.  For an admin, with
    an election configured, the request sets [isPublished] to true
    whatever the election's [isOpen] flag is and whether or not a tally
    was ever run, and answers "Results published" when the audit write
    goes through. *)
Theorem publish_is_unconditional env sub u e db :
  Voter_findById sub db = Some u →
  role (user_doc u) = "admin" →
  Election_findOne db = Some e →
  Election_findOne (handle env (ResultsPublish (Verified sub)) db).2
  = Some (with_isPublished true e)
  ∧ (handle env (ResultsPublish (Verified sub)) db).1
    = (if auditWriteOk env then Reply 200 (Message "Results published")
       else Rejected).
Proof.
  intros Hu Hadmin He.
  pose proof (Election_save_findOne e (with_isPublished true e) db He eq_refl)
    as Hsaved.
  unfold handle, serve, route, admin_results_publish, bind.
  rewrite (authMiddleware_verified _ _ _ _ Hu).
  unfold adminMiddleware. rewrite Hadmin. simpl.
  unfold the_election, bind, get_db, ret. rewrite He.
  unfold Election_save, modify_db in *. simpl in *.
  unfold AuditLog_create, modify_db, reject, reply.
  destruct (auditWriteOk env); simpl; done.
Qed.

(** C9 (as amended).  Audit writes are awaited inside the operation and
    their failure is not handled.  When the audit write fails, the only
    requests that still get a success response are those of the two routes
    that write no audit entry, [GET /results/view] and
    [GET /admin/audit/logs]; a login gets no token.  An otherwise
    successful vote submission has by then stored the vote and set
    [votedAt], and ends without a response, so without handing the receipt
    to the voter. *)
Theorem audit_failure_fails_operation env db :
  auditWriteOk env = false →
  (∀ req, succeeded (handle env req db).1 = true →
          req = ResultsView ∨ ∃ a, req = AuditLogsGet a)
  ∧ (∀ lib mail password,
       (auth_login lib env mail password db).1
       = LoginReply 400 "Missing credentials"
       ∨ (auth_login lib env mail password db).1 = LoginRejected)
  ∧ (∀ sub u e sels,
       Voter_findById sub db = Some u →
       Election_findOne db = Some e →
       isAcceptingBallots e (now env) = true →
       (∀ a, assignments db !! (sub, election_id e) = Some a →
             votedAt a = None) →
       forallb SelectionSchema_valid sels = true →
       required (randomReceipt env) = true →
       randomReceipt env ∉ receipt <$> votes db →
       let res := handle env (VoteSubmit (Verified sub) sels) db in
       res.1 = Rejected
       ∧ votes res.2
         = (votes db ++ [ {| electionId := election_id e; selections := sels;
                            submittedAt := now env;
                            receipt := randomReceipt env |} ])%list
       ∧ (∃ a, assignments res.2 !! (sub, election_id e) = Some a
               ∧ votedAt a = Some (now env))
       ∧ auditLogs res.2 = auditLogs db).
Proof.
  intros Hfail. split_and!.
  - intros req.
    destruct req; unfold_routes; rewrite ?Hfail; simpl;
      repeat (case_match; simplify_eq/=; try done); eauto.
  - intros lib mail password.
    unfold auth_login, audited, AuditLog_create, reject. rewrite Hfail.
    repeat (case_match; simplify_eq/=; eauto).
  - intros sub u e sels Hu He Hacc Hnot Hvalid Hreq Hfresh res.
    destruct (vote_submit_run _ _ _ _ _ _ Hu He Hacc Hnot Hvalid Hreq Hfresh)
      as (Hout & Hvotes & Hvoted & Hlogs).
    rewrite Hfail in Hout, Hlogs. done.
Qed.

(** * Requests that overlap *)

Lemma kept_refl db : kept db db.
Proof. split; [done|]. intros key r Hr. by exists r. Qed.

Lemma kept_trans db1 db2 db3 : kept db1 db2 → kept db2 db3 → kept db1 db3.
Proof.
  intros [Hu12 H12] [Hu23 H23]. split; [congruence|]. intros key r Hr.
  destruct (H12 key r Hr) as (r2 & Hr2 & Hi2 & Hv2).
  destruct (H23 key r2 Hr2) as (r3 & Hr3 & Hi3 & Hv3).
  exists r3. split; [done|]. split; [congruence | auto].
Qed.

Lemma kept_same db db' :
  voters db' = voters db → assignments db' = assignments db → kept db db'.
Proof. intros Hu Heq. split; [done|]. intros key r Hr. exists r. by rewrite Heq. Qed.

Lemma AuditLog_create_voters env who whoId act d db :
  voters (AuditLog_create env who whoId act d db).2 = voters db.
Proof. unfold AuditLog_create. by destruct (auditWriteOk env). Qed.

Lemma AuditLog_create_kept env who whoId act d db :
  kept db (AuditLog_create env who whoId act d db).2.
Proof.
  apply kept_same; unfold AuditLog_create; by destruct (auditWriteOk env).
Qed.

Lemma AnonymousVote_create_kept env eid sels r db :
  kept db (AnonymousVote_create env eid sels r db).2.
Proof. apply kept_same; unfold AnonymousVote_create; by case_match. Qed.

Lemma Election_create_kept env p db : kept db (Election_create env p db).2.
Proof. apply kept_same; unfold Election_create; by case_match. Qed.

Lemma Election_update_kept id f db : kept db (Election_update id f db).2.
Proof. apply kept_same; unfold Election_update; by case_match. Qed.

Lemma AuditLog_create_assignments env who whoId act d db :
  assignments (AuditLog_create env who whoId act d db).2 = assignments db.
Proof. unfold AuditLog_create. by destruct (auditWriteOk env). Qed.

Lemma AuditLog_create_votes env who whoId act d db :
  votes (AuditLog_create env who whoId act d db).2 = votes db.
Proof. unfold AuditLog_create. by destruct (auditWriteOk env). Qed.

Lemma AnonymousVote_create_assignments env eid sels r db :
  assignments (AnonymousVote_create env eid sels r db).2 = assignments db.
Proof. unfold AnonymousVote_create. by case_match. Qed.

Lemma Election_create_assignments env p db :
  assignments (Election_create env p db).2 = assignments db.
Proof. unfold Election_create. by case_match. Qed.

Lemma Election_update_assignments id f db :
  assignments (Election_update id f db).2 = assignments db.
Proof. unfold Election_update. by case_match. Qed.

Lemma BallotAssignment_create_kept key record db :
  kept db (BallotAssignment_create key record db).2.
Proof.
  unfold BallotAssignment_create.
  destruct (assignments db !! key) eqn:Hkey; [apply kept_refl|].
  split; [done|]. intros key' r Hr. exists r. simpl.
  rewrite lookup_insert_ne; [done | congruence].
Qed.

Lemma BallotAssignment_save_votedAt_kept key t db :
  kept db (BallotAssignment_save_votedAt key t db).2.
Proof.
  split; [done|]. intros key' r Hr. simpl.
  destruct (decide (key' = key)) as [->|Hne].
  - rewrite lookup_alter_eq, Hr. simpl. eexists. by repeat split.
  - rewrite lookup_alter_ne by done. by exists r.
Qed.

Lemma auditTask_safe env t user act d o : safe (auditTask env t user act d o).
Proof.
  cbn [safe auditTask]. split; [intros db; apply AuditLog_create_kept | by split].
Qed.

Lemma authTask_safe env a next :
  (∀ t user, safe (next t user)) → safe (authTask env a next).
Proof.
  intros Hnext. destruct a; cbn [safe authTask]; try done.
  - split; [intros db; apply AuditLog_create_kept | by split].
  - split; [intros db; apply kept_refl|]. split.
    + intros t [user|]; [apply Hnext | done].
    + intros t msg. cbn [safe]. split; [intros db; apply AuditLog_create_kept | by split].
Qed.

Lemma adminTask_safe user next : safe next → safe (adminTask user next).
Proof. intros Hnext. unfold adminTask. by case_match. Qed.

Lemma electionOpenTask_safe next :
  (∀ t election, safe (next t election)) → safe (electionOpenTask next).
Proof.
  intros Hnext. cbn [safe electionOpenTask].
  split; [intros db; apply kept_refl|]. split; [|done].
  intros t [election|]; [|done]. case_match; [done | apply Hnext].
Qed.

Lemma the_election_task_safe next :
  (∀ t election, safe (next t election)) → safe (the_election_task next).
Proof.
  intros Hnext. cbn [safe the_election_task].
  split; [intros db; apply kept_refl|]. split; [|done].
  intros t [election|]; [apply Hnext | done].
Qed.

Lemma oneBallotTask_safe user election next :
  (∀ t record, safe (next t record)) → safe (oneBallotTask user election next).
Proof.
  intros Hnext.
  assert (∀ t record,
            safe match votedAt record with
                 | Some _ => Finished (Reply 403 (Message "Already voted"))
                 | None => next t record
                 end) as Hcheck.
  { intros t record. case_match; [done | apply Hnext]. }
  cbn [safe oneBallotTask].
  split; [intros db; apply kept_refl|]. split; [|done].
  intros t [record|]; [apply Hcheck|].
  cbn [safe]. split; [intros db; apply BallotAssignment_create_kept|].
  split; [apply Hcheck | done].
Qed.

Lemma Election_update_safe id f next :
  (∀ t x, safe (next t x)) → safe (Await (Election_update id f) next rejects).
Proof.
  intros Hnext. cbn [safe]. split; [|by split].
  intros db. apply Election_update_kept.
Qed.

Lemma start_safe env req : safe (start env req).
Proof.
  destruct req; cbn [start].
  - apply authTask_safe. intros _ user.
    apply electionOpenTask_safe. intros _ election.
    apply oneBallotTask_safe. intros t _.
    cbn [safe]. split; [intros db; apply AuditLog_create_kept | by split].
  - apply authTask_safe. intros _ user.
    apply electionOpenTask_safe. intros _ election.
    apply oneBallotTask_safe. intros t _.
    cbn [safe]. split; [|split; [|done]].
    + intros db. apply AnonymousVote_create_kept.
    + intros t' _. cbn [safe]. split; [|split; [|done]].
      * intros db. apply BallotAssignment_save_votedAt_kept.
      * intros t'' _. apply auditTask_safe.
  - apply authTask_safe. intros _ user. apply adminTask_safe.
    cbn [safe]. split; [|split; [|done]].
    + intros db. by apply kept_same.
    + intros t _. cbn [safe]. split; [|split; [|done]].
      * intros db. apply Election_create_kept.
      * intros t' election. apply auditTask_safe.
  - apply authTask_safe. intros _ user. apply adminTask_safe.
    apply the_election_task_safe. intros _ election.
    apply Election_update_safe. intros t _. apply auditTask_safe.
  - apply authTask_safe. intros _ user. apply adminTask_safe.
    apply the_election_task_safe. intros _ election.
    apply Election_update_safe. intros t _. apply auditTask_safe.
  - apply authTask_safe. intros _ user. apply adminTask_safe.
    apply the_election_task_safe. intros _ election.
    cbn [safe]. split; [intros db; apply kept_refl|]. split; [|done].
    intros t found. apply auditTask_safe.
  - apply authTask_safe. intros _ user. apply adminTask_safe.
    apply the_election_task_safe. intros _ election.
    apply Election_update_safe. intros t _. apply auditTask_safe.
  - apply authTask_safe. intros _ user. apply adminTask_safe.
    cbn [safe]. split; [intros db; apply kept_refl|]. by split.
  - apply the_election_task_safe. intros _ election.
    case_match; [done|].
    cbn [safe]. split; [intros db; apply kept_refl|]. by split.
Qed.

Lemma start_login_safe lib env mail password :
  safe (start_login lib env mail password).
Proof.
  unfold start_login. case_match; [done|].
  assert (∀ t, safe (Await (AuditLog_create (at_instant t env) (Some mail)
                              None "login_failed" NoDetails)
                       (λ _ _, FinishedLogin
                                 (LoginReply 401 "Invalid credentials"))
                       rejects_login)) as Hfailed.
  { intros t. cbn [safe]. split; [intros db; apply AuditLog_create_kept | by split]. }
  cbn [safe]. split; [intros db; apply kept_refl|]. split; [|done].
  intros t [user|]; [|apply Hfailed].
  cbn [safe]. split; [intros db; apply kept_refl|]. split; [|done].
  intros t' [|]; [|apply Hfailed].
  cbn [safe]. split; [intros db; apply AuditLog_create_kept | by split].
Qed.

Lemma resume_safe task t db task' db' :
  safe task → resume task t db = Some (task', db') →
  safe task' ∧ kept db db'.
Proof.
  destruct task as [o|o|X call k catch]; [done | done |].
  cbn [safe resume]. intros (Hcall & Hk & Hcatch) Heq.
  specialize (Hcall db).
  destruct (call db) as [[x|o] db''] eqn:Hc; simplify_eq/=; by split.
Qed.

Lemma interrupt_safe task t msg written db task' db' :
  safe task → interrupt task t msg written db = Some (task', db') →
  safe task' ∧ kept db db'.
Proof.
  destruct task as [o|o|X call k catch]; [done | done |].
  cbn [safe interrupt]. intros (Hcall & Hk & Hcatch) Heq. simplify_eq/=.
  split; [done|]. destruct written; [apply Hcall | apply kept_refl].
Qed.

Lemma fire_safe ev c c' :
  Forall safe (pool c) → fire ev c = Some c' →
  Forall safe (pool c') ∧ kept (store c) (store c').
Proof.
  intros Hpool Hfire. destruct ev as [env req|lib env mail pw|i t|i t msg w];
    simpl in Hfire.
  - simplify_eq/=. split; [|apply kept_refl].
    apply Forall_app. split; [done|]. apply Forall_singleton, start_safe.
  - simplify_eq/=. split; [|apply kept_refl].
    apply Forall_app. split; [done|].
    apply Forall_singleton, start_login_safe.
  - destruct (pool c !! i) as [task|] eqn:Hi; simplify_eq/=.
    destruct (resume task t (store c)) as [[task' db']|] eqn:Hr;
      simplify_eq/=.
    assert (safe task) as Htask
      by exact (proj1 (Forall_lookup _ _) Hpool i task Hi).
    destruct (resume_safe _ _ _ _ _ Htask Hr) as [Hs Hk].
    split; [|done]. by apply Forall_insert.
  - destruct (pool c !! i) as [task|] eqn:Hi; simplify_eq/=.
    destruct (interrupt task t msg w (store c)) as [[task' db']|] eqn:Hr;
      simplify_eq/=.
    assert (safe task) as Htask
      by exact (proj1 (Forall_lookup _ _) Hpool i task Hi).
    destruct (interrupt_safe _ _ _ _ _ _ _ Htask Hr) as [Hs Hk].
    split; [|done]. by apply Forall_insert.
Qed.

Lemma along_cons p c ev evs c' :
  along p c (ev :: evs) = Some c' →
  p c = true ∧ ∃ c1, fire ev c = Some c1 ∧ along p c1 evs = Some c'.
Proof.
  cbn [along]. destruct (p c); [|done]. intros Heq. split; [done|].
  destruct (fire ev c) as [c1|]; [|done]. by exists c1.
Qed.

Lemma along_nil p c c' : along p c [] = Some c' → p c = true ∧ c' = c.
Proof. cbn [along]. destruct (p c); [|done]. intros [= <-]. done. Qed.

Lemma along_safe p c evs c' :
  Forall safe (pool c) → along p c evs = Some c' →
  Forall safe (pool c') ∧ kept (store c) (store c').
Proof.
  revert c. induction evs as [|ev evs IH]; intros c Hpool Hrun.
  - apply along_nil in Hrun as [_ ->]. split; [done | apply kept_refl].
  - apply along_cons in Hrun as (_ & c1 & Hfire & Hrun).
    destruct (fire_safe _ _ _ Hpool Hfire) as [Hpool1 Hk1].
    destruct (IH _ Hpool1 Hrun) as [Hpool' Hk'].
    split; [done|]. by eapply kept_trans.
Qed.

(** X7.  Whatever requests arrive, however their steps interleave and
    whichever of their calls fail, an assignment, once stored, is never
    deleted, keeps its [issuedAt], and keeps a [votedAt] once it has
    one. *)
Theorem assignments_are_kept db evs1 c1 evs2 c2 key r :
  runs (initial db) evs1 = Some c1 →
  runs c1 evs2 = Some c2 →
  assignments (store c1) !! key = Some r →
  ∃ r', assignments (store c2) !! key = Some r'
        ∧ issuedAt r' = issuedAt r
        ∧ (is_Some (votedAt r) → is_Some (votedAt r')).
Proof.
  intros Hrun1 Hrun2 Hr.
  destruct (along_safe _ (initial db) evs1 c1 (Forall_nil_2 _) Hrun1)
    as [Hpool _].
  destruct (along_safe _ c1 evs2 c2 Hpool Hrun2) as [_ Hkept].
  exact (proj2 Hkept key r Hr).
Qed.

(** ** A submission that arrives after [votedAt] is set *)

Lemma turned_down_false o : turned_down true o → turned_down false o.
Proof. intros [?|[?|[? _]]]; [by left | by right; left | done]. Qed.

Lemma late_submission_harmless env sub sels eid clean :
  harmless sub eid clean (start env (VoteSubmit (Verified sub) sels)).
Proof.
  cbn [start authTask harmless]. split.
  - intros db [Hel (r & Hr & Hvoted)] Huser. cbn [find_voter fst snd].
    split; [done|]. split; [done|]. split; [by eexists|].
    intros t found [= <-].
    destruct (Voter_findById sub db) as [user|] eqn:Hfound.
    2:{ destruct clean.
        - by destruct (Huser eq_refl).
        - right. right. split; [done|]. right. by left. }
    pose proof (Voter_findById_user_id _ _ _ Hfound) as Hid.
    cbn [electionOpenTask harmless]. split.
    2:{ intros ? ?. right. right. split; [done|]. by left. }
    intros db1 [Hel1 _] _. cbn [find_election fst snd].
    split; [done|]. split; [done|]. split; [by eexists|].
    intros t1 found1 [= <-].
    destruct (Election_findOne db1) as [election|] eqn:Helection; [|done].
    injection Hel1 as Heid.
    case_match; [right; by left|].
    cbn [oneBallotTask harmless]. split.
    2:{ intros ? ?. right. right. split; [done|]. by left. }
    intros db2 [_ (r2 & Hr2 & Hvoted2)] _. cbn [find_assignment fst snd].
    split; [done|]. split; [done|]. split; [by eexists|].
    intros t2 found2 [= <-].
    rewrite Hid, Heid, Hr2. destruct Hvoted2 as [tv ->]. by left.
  - intros t msg. cbn [harmless]. split.
    + intros db _ _.
      split; [apply AuditLog_create_votes|].
      split; [apply AuditLog_create_assignments|].
      split; [done|].
      intros ? ? ?. right. right. split; [done|]. right. by right.
    + intros ? ?. right. right. split; [done|]. by left.
Qed.

Lemma resume_harmless sub eid clean task t db task' db' :
  harmless sub eid clean task →
  settled sub eid db →
  (clean = true → is_Some (Voter_findById sub db)) →
  resume task t db = Some (task', db') →
  votes db' = votes db ∧ assignments db' = assignments db
  ∧ harmless sub eid clean task'.
Proof.
  destruct task as [o|o|X call k catch]; [done | done |].
  cbn [harmless resume]. intros [Hcall Hcatch] Hsettled Huser Heq.
  destruct (Hcall db Hsettled Huser) as (Hv & Ha & Hnext & Hk).
  destruct (call db) as [[x|o] db''] eqn:Hc; simplify_eq/=.
  - split; [done|]. split; [done|]. by apply Hk.
  - split; [done|]. split; [done|]. destruct clean; [|apply Hcatch].
    by destruct (Hnext eq_refl).
Qed.

Lemma interrupt_harmless sub eid clean task t msg written db task' db' :
  harmless sub eid clean task →
  settled sub eid db →
  (clean = true → is_Some (Voter_findById sub db)) →
  interrupt task t msg written db = Some (task', db') →
  votes db' = votes db ∧ assignments db' = assignments db
  ∧ harmless sub eid false task'.
Proof.
  destruct task as [o|o|X call k catch]; [done | done |].
  cbn [harmless interrupt]. intros [Hcall Hcatch] Hsettled Huser Heq.
  destruct (Hcall db Hsettled Huser) as (Hv & Ha & _).
  simplify_eq/=. by destruct written.
Qed.

Lemma Voter_findById_kept sub db db' :
  kept db db' → Voter_findById sub db' = Voter_findById sub db.
Proof. intros [Hu _]. apply Voter_findById_voters. done. Qed.

Lemma voted_kept sub eid db db' :
  kept db db' →
  (∃ r, assignments db !! (sub, eid) = Some r ∧ is_Some (votedAt r)) →
  ∃ r, assignments db' !! (sub, eid) = Some r ∧ is_Some (votedAt r).
Proof.
  intros [_ Hk] (r & Hr & Hv).
  destruct (Hk _ _ Hr) as (r' & Hr' & _ & Hv'). exists r'. auto.
Qed.

(** The request [i], once harmless, stays so on every step, its own or
    another's, while the election stays configured. *)
Lemma fire_harmless sub eid clean i ev c c' task :
  Forall safe (pool c) →
  pool c !! i = Some task →
  harmless sub eid clean task →
  settled sub eid (store c) →
  (clean = true → is_Some (Voter_findById sub (store c))) →
  (clean = true → fails_of i ev = false) →
  fire ev c = Some c' →
  (∃ r, assignments (store c') !! (sub, eid) = Some r ∧ is_Some (votedAt r))
  ∧ (clean = true → is_Some (Voter_findById sub (store c')))
  ∧ (∃ task', pool c' !! i = Some task' ∧ harmless sub eid clean task')
  ∧ (request_of ev = Some i →
     votes (store c') = votes (store c)
     ∧ assignments (store c') = assignments (store c)).
Proof.
  intros Hpool Hi Hharmless Hsettled Huser Hclean Hfire.
  destruct (fire_safe _ _ _ Hpool Hfire) as [_ Hkept].
  split; [exact (voted_kept _ _ _ _ Hkept (proj2 Hsettled))|].
  split; [intros Hc; rewrite (Voter_findById_kept _ _ _ Hkept); auto|].
  pose proof (lookup_lt_Some _ _ _ Hi) as Hlt.
  destruct ev as [env req|lib env mail pw|j t|j t msg w]; simpl in Hfire.
  - simplify_eq/=. split; [|done]. exists task.
    split; [by rewrite lookup_app_l|done].
  - simplify_eq/=. split; [|done]. exists task.
    split; [by rewrite lookup_app_l|done].
  - destruct (pool c !! j) as [taskj|] eqn:Hj; simplify_eq/=.
    destruct (resume taskj t (store c)) as [[task' db']|] eqn:Hr;
      simplify_eq/=.
    destruct (decide (j = i)) as [->|Hne].
    + rewrite Hi in Hj. injection Hj as <-.
      destruct (resume_harmless _ _ _ _ _ _ _ _ Hharmless Hsettled Huser Hr)
        as (Hv & Ha & Hh).
      split; [|done]. exists task'.
      split; [by rewrite list_lookup_insert_eq|done].
    + split; [|by intros [= ?]]. exists task.
      split; [by rewrite list_lookup_insert_ne|done].
  - destruct (pool c !! j) as [taskj|] eqn:Hj; simplify_eq/=.
    destruct (interrupt taskj t msg w (store c)) as [[task' db']|] eqn:Hr;
      simplify_eq/=.
    destruct (decide (j = i)) as [->|Hne].
    + rewrite Hi in Hj. injection Hj as <-.
      destruct (interrupt_harmless _ _ _ _ _ _ _ _ _ _ Hharmless Hsettled Huser Hr)
        as (Hv & Ha & Hh).
      split; [|done]. exists task'.
      split; [by rewrite list_lookup_insert_eq|].
      destruct clean; [|done].
      specialize (Hclean eq_refl). by rewrite bool_decide_eq_false in Hclean.
    + split; [|by intros [= ?]]. exists task.
      split; [by rewrite list_lookup_insert_ne|done].
Qed.

Lemma along_harmless sub eid clean i evs c c' task :
  Forall safe (pool c) →
  pool c !! i = Some task →
  harmless sub eid clean task →
  (∃ r, assignments (store c) !! (sub, eid) = Some r ∧ is_Some (votedAt r)) →
  (clean = true → is_Some (Voter_findById sub (store c))) →
  (clean = true → forallb (λ ev, negb (fails_of i ev)) evs = true) →
  along (configured eid) c evs = Some c' →
  Forall safe (pool c')
  ∧ settled sub eid (store c')
  ∧ (clean = true → is_Some (Voter_findById sub (store c')))
  ∧ ∃ task', pool c' !! i = Some task' ∧ harmless sub eid clean task'.
Proof.
  revert c task. induction evs as [|ev evs IH];
    intros c task Hpool Hi Hharmless Hvoted Huser Hclean Hrun.
  - apply along_nil in Hrun as [Hconf ->].
    apply bool_decide_eq_true in Hconf.
    split; [done|]. split; [done|]. split; [done|]. by exists task.
  - apply along_cons in Hrun as (Hconf & c1 & Hfire & Hrun).
    apply bool_decide_eq_true in Hconf.
    assert (clean = true → fails_of i ev = false) as Hev.
    { intros Hc. specialize (Hclean Hc). cbn [forallb] in Hclean.
      apply andb_true_iff in Hclean as [Hclean _].
      by apply negb_true_iff in Hclean. }
    assert (clean = true → forallb (λ ev, negb (fails_of i ev)) evs = true)
      as Hrest.
    { intros Hc. specialize (Hclean Hc). cbn [forallb] in Hclean.
      by apply andb_true_iff in Hclean as [_ Hclean]. }
    destruct (fire_harmless sub eid clean i ev c c1 task Hpool Hi Hharmless
                (conj Hconf Hvoted) Huser Hev Hfire)
      as (Hvoted1 & Huser1 & (task1 & Hi1 & Hh1) & _).
    destruct (fire_safe _ _ _ Hpool Hfire) as [Hpool1 _].
    exact (IH c1 task1 Hpool1 Hi1 Hh1 Hvoted1 Huser1 Hrest Hrun).
Qed.

(** C1 (as amended).  Once the assignment of a voter for the configured
    election carries [votedAt], a submission by that voter that arrives
    afterwards is turned down, however its steps interleave with those of
    other requests and whichever calls fail, as long as that election
    stays the one configured: [votedAt] stays set, no step of the
    submission writes a vote or an assignment, and its outcome is "Already
    voted", "Election not open", 401, or no response; when the voter is
    stored and none of its calls fails, it is "Already voted" or
    "Election not open". *)
Theorem vote_submit_at_most_once
    db evs1 c1 env sub sels eid r evs2 c2 :
  runs (initial db) evs1 = Some c1 →
  assignments (store c1) !! (sub, eid) = Some r →
  is_Some (votedAt r) →
  along (configured eid) c1
        (Arrives env (VoteSubmit (Verified sub) sels) :: evs2) = Some c2 →
  (∃ r2, assignments (store c2) !! (sub, eid) = Some r2
         ∧ is_Some (votedAt r2))
  ∧ (∀ ev c3, request_of ev = Some (length (pool c1)) →
       fire ev c2 = Some c3 →
       votes (store c3) = votes (store c2)
       ∧ assignments (store c3) = assignments (store c2))
  ∧ (∀ o, pool c2 !! length (pool c1) = Some (Finished o) →
       o = AlreadyVoted ∨ o = NotEligible ∨ o = Rejected
       ∨ o = Reply 401 (Message "User not found")
       ∨ o = Reply 401 (Message "Invalid or expired token"))
  ∧ (is_Some (Voter_findById sub (store c1)) →
     forallb (λ ev, negb (fails_of (length (pool c1)) ev)) evs2 = true →
     ∀ o, pool c2 !! length (pool c1) = Some (Finished o) →
       o = AlreadyVoted ∨ o = NotEligible).
Proof.
  intros Hrun1 Hr Hvoted Hrun2.
  destruct (along_safe _ (initial db) evs1 c1 (Forall_nil_2 _) Hrun1)
    as [Hpool1 _].
  apply along_cons in Hrun2 as (Hconf & ca & Harrive & Hrun2).
  simpl in Harrive. injection Harrive as <-.
  set (late := start env (VoteSubmit (Verified sub) sels)) in *.
  set (ca := {| store := store c1; pool := (pool c1 ++ [late])%list |}) in *.
  assert (Forall safe (pool ca)) as Hpool.
  { apply Forall_app. split; [done|]. apply Forall_singleton, start_safe. }
  assert (pool ca !! length (pool c1) = Some late) as Hi.
  { simpl. by rewrite lookup_app_r, Nat.sub_diag by lia. }
  assert (∃ r, assignments (store ca) !! (sub, eid) = Some r
               ∧ is_Some (votedAt r)) as Hset by (by exists r).
  destruct (along_harmless sub eid false (length (pool c1)) evs2 ca c2 late
              Hpool Hi (late_submission_harmless _ _ _ _ _) Hset
              ltac:(done) ltac:(done) Hrun2)
    as (Hpool2 & Hsettled2 & _ & task2 & Hi2 & Hh2).
  split; [exact (proj2 Hsettled2)|]. split; [|split].
  - intros ev c3 Hactor Hfire.
    refine (proj2 (proj2 (proj2
      (fire_harmless sub eid false _ ev c2 c3 task2 Hpool2 Hi2 Hh2
         Hsettled2 ltac:(done) ltac:(done) Hfire))) Hactor).
  - intros o Ho. rewrite Hi2 in Ho. injection Ho as ->.
    destruct Hh2 as [?|[?|[_ [?|[?|?]]]]]; auto.
  - intros Huser Hclean o Ho.
    destruct (along_harmless sub eid true (length (pool c1)) evs2 ca c2 late
                Hpool Hi (late_submission_harmless _ _ _ _ _) Hset
                (λ _, Huser) (λ _, Hclean) Hrun2)
      as (_ & _ & _ & task3 & Hi3 & Hh3).
    rewrite Hi3 in Ho. injection Ho as ->.
    destruct Hh3 as [?|[?|[? _]]]; auto. done.
Qed.

(** ** A request served alone is the request of [handle] *)

Lemma at_instant_now env : at_instant (now env) env = env.
Proof. by destruct env. Qed.

Lemma same_id_same_election (l : list Election) x y :
  NoDup (election_id <$> l) → x ∈ l → y ∈ l →
  election_id x = election_id y → x = y.
Proof.
  induction l as [|z l IH]; intros Hnd Hx Hy Heq; [by apply elem_of_nil in Hx|].
  rewrite fmap_cons in Hnd. apply NoDup_cons in Hnd as [Hz Hnd].
  apply elem_of_cons in Hx as [->|Hx]; apply elem_of_cons in Hy as [->|Hy].
  - done.
  - destruct Hz. rewrite Heq. by apply list_elem_of_fmap_2.
  - destruct Hz. rewrite <-Heq. by apply list_elem_of_fmap_2.
  - by apply IH.
Qed.

Lemma Election_update_save f e db :
  (∀ x, election_id (f x) = election_id x) →
  NoDup (election_id <$> elections db) →
  Election_findOne db = Some e →
  Election_update (election_id e) f db = Election_save (f e) db.
Proof.
  intros Hf Hnd He. unfold Election_update, Election_save, modify_db.
  assert (e ∈ elections db) as Hin.
  { unfold Election_findOne in He. destruct (elections db); simplify_eq/=.
    apply elem_of_cons. by left. }
  rewrite bool_decide_eq_true_2 by (by apply list_elem_of_fmap_2).
  do 2 f_equal. apply list_eq. intros i. rewrite !list_lookup_fmap.
  destruct (elections db !! i) as [x|] eqn:Hx; [|done]. simpl. f_equal.
  rewrite Hf. case_decide as Hid; [|done].
  by rewrite (same_id_same_election _ x e Hnd (list_elem_of_lookup_2 _ _ _ Hx)
                Hin Hid).
Qed.

Ltac unfold_tasks :=
  unfold start, authTask, adminTask, electionOpenTask, oneBallotTask,
    auditTask, the_election_task, rejects, find_voter, find_election,
    find_assignment, find_votes, find_logs, BallotAssignment_create,
    Election_deleteMany.

Ltac served_alone :=
  unfold_tasks; unfold_routes; cbn [alone]; rewrite ?at_instant_now;
  repeat (case_match; simplify_eq/=; try done).

Ltac updated_alone r Hnd :=
  unfold handle, serve, route, r, the_election, authMiddleware,
    adminMiddleware, bind, ret, reply, reject, get_db;
  unfold_tasks; rewrite ?at_instant_now;
  match goal with
  | |- alone _ (match ?a with _ => _ end) ?db = _ =>
      destruct a as [| |err|sub];
      cbn -[Election_update Election_save AuditLog_create]; try done;
      [ unfold AuditLog_create, modify_db, reject;
        repeat (case_match; simplify_eq/=; try done)
      | destruct (Voter_findById sub db) as [u|];
        cbn -[Election_update Election_save AuditLog_create]; [|done];
        destruct (String.eqb (role (user_doc u)) "admin");
        cbn -[Election_update Election_save AuditLog_create]; [|done];
        let e := fresh "e" in
        let He := fresh "He" in
        destruct (Election_findOne db) as [e|] eqn:He;
        cbn -[Election_update Election_save AuditLog_create]; [|done];
        rewrite (Election_update_save _ e db) by done;
        unfold Election_save, AuditLog_create, modify_db, reject;
        repeat (case_match; simplify_eq/=; try done) ]
  end.

(** Served alone, with every call completing at the time of arrival, a
    request ends as [handle] says; the ids of the stored elections are
    distinct, as [_id]s are. *)
Lemma alone_handle env req db :
  NoDup (election_id <$> elections db) →
  alone (now env) (start env req) db
  = (Finished (handle env req db).1, (handle env req db).2).
Proof.
  intros Hnd.
  destruct req;
    [ served_alone | served_alone | served_alone
    | updated_alone admin_election_open Hnd
    | updated_alone admin_election_close Hnd
    | served_alone
    | updated_alone admin_results_publish Hnd
    | served_alone | served_alone ].
Qed.

(** So does a login. *)
Lemma alone_auth_login lib env mail password db :
  alone (now env) (start_login lib env mail password) db
  = (FinishedLogin (auth_login lib env mail password db).1,
     (auth_login lib env mail password db).2).
Proof.
  unfold start_login, auth_login, audited, find_login, rejects_login, ret.
  case_match; [done|].
  cbn [alone]. rewrite ?at_instant_now.
  unfold AuditLog_create, modify_db, reject.
  repeat (case_match; simplify_eq/=; try done).
Qed.

(** * The scenario of the specification, run *)

Import Scenario.

(** v1 votes for A at time 1500 and gets receipt r1; a second submission
    is answered "Already voted"; the tally is {C1: {A: 1, B: 0}}. *)
Example scenario_one_vote :
  let first :=
    handle (at_time 1500 "r1" true) (VoteSubmit (Verified 1) pickA) db0 in
  first.1 = Reply 200 (ReceiptBody "Vote submitted" "r1")
  ∧ handle (at_time 1600 "r2" true) (VoteSubmit (Verified 1) pickA) first.2
    = (AlreadyVoted, first.2)
  ∧ tally_run_results (contests E1) (AnonymousVote_find 7 first.2)
    = {[ "C1" := {[ "A" := 1%nat; "B" := 0%nat ]} ]}.
Proof. vm_compute. done. Qed.

(** C1, counterexample.  v1 votes at time 1500, inside the window
    [1000, 2000] of E1.  At time 2500 the same election is still the one
    configured and v1 submits again: the answer is "Election not open",
    not "Already voted". *)
Lemma later_submission_not_AlreadyVoted :
  let first :=
    handle (at_time 1500 "r1" true) (VoteSubmit (Verified 1) pickA) db0 in
  let later :=
    handle (at_time 2500 "r2" true) (VoteSubmit (Verified 1) pickA) first.2 in
  first.1 = Reply 200 (ReceiptBody "Vote submitted" "r1")
  ∧ Election_findOne first.2 = Some E1
  ∧ later.1 = NotEligible
  ∧ later.1 ≠ AlreadyVoted.
Proof. vm_compute. split_and!; [done | done | done | discriminate]. Qed.

(** C2, counterexample.  A selection for a contest that does not exist, a
    selection of a candidate that does not exist, and two selected ids
    where [maxSelections] is 1: each submission is answered "Vote
    submitted" and stored as it came. *)
Lemma invalid_selections_are_stored :
  let env := at_time 1500 "r1" true in
  let submit sels := handle env (VoteSubmit (Verified 1) sels) db0 in
  let stored sels :=
    [ {| electionId := 7; selections := sels; submittedAt := 1500%Z;
         receipt := "r1" |} ] in
  let accepted := Reply 200 (ReceiptBody "Vote submitted" "r1") in
  (known_contest (contests E1) "C9" = false
   ∧ (submit unknownContest).1 = accepted
   ∧ votes (submit unknownContest).2 = stored unknownContest)
  ∧ (known_candidate (contests E1) "C1" "Z" = false
     ∧ (submit unknownCandidate).1 = accepted
     ∧ votes (submit unknownCandidate).2 = stored unknownCandidate)
  ∧ ((maxSelections contestC1 < 2)%Z
     ∧ (submit tooMany).1 = accepted
     ∧ votes (submit tooMany).2 = stored tooMany).
Proof. vm_compute. done. Qed.

Lemma vote_submit_stores_selections_unchecked_witness :
  votes (handle (at_time 1500 "r1" true)
                (VoteSubmit (Verified 1) unknownContest) db0).2
  = [ {| electionId := 7; selections := unknownContest;
         submittedAt := 1500%Z; receipt := "r1" |} ].
Proof.
  refine (proj2 (vote_submit_stores_selections_unchecked
                   (at_time 1500 "r1" true) 1 v1 E1 unknownContest db0
                   _ _ _ _ _ _ _ _)).
  - reflexivity.
  - reflexivity.
  - reflexivity.
  - intros a Ha. vm_compute in Ha. discriminate.
  - reflexivity.
  - reflexivity.
  - simpl. apply not_elem_of_nil.
  - reflexivity.
Defined.

(** C3.  After v1's submission the audit log holds an entry with v1's
    email and id and with receipt r1, and r1 is the key of the stored
    vote: a stored record ties the voter to the vote. *)
Lemma audit_log_links_voter_to_vote :
  let db := (handle (at_time 1500 "r1" true)
                    (VoteSubmit (Verified 1) pickA) db0).2 in
  audit_links db v1 voteA
  ∧ auditLogs db
    = [ {| actor := Some "v1@example.org"; actorId := Some 1;
           action := "vote_submitted"; details := ReceiptDetails "r1";
           createdAt := 1500%Z |} ]
  ∧ votes db = [voteA].
Proof.
  split; [|by vm_compute].
  apply (vote_submit_audit_links (at_time 1500 "r1" true) 1 v1 E1 pickA db0);
    try reflexivity.
  - intros a Ha. vm_compute in Ha. discriminate.
  - simpl. apply not_elem_of_nil.
Qed.

(** X25.  Two submissions of one voter that overlap can both succeed: in
    the run [race] both pass [oneBallotOnlyMiddleware] before either sets
    [votedAt]; both are answered 200, two votes are stored, and the second
    save overwrites [votedAt]. *)
Lemma overlapping_submissions_both_succeed :
  (λ c, (pool c, length (votes (store c)),
         assignments (store c) !! (1, 7)))
    <$> runs (initial db0) race
  = Some ([ Finished (Reply 200 (ReceiptBody "Vote submitted" "r1"));
            Finished (Reply 200 (ReceiptBody "Vote submitted" "r2")) ],
          2%nat,
          Some {| issuedAt := 1500%Z; votedAt := Some 1501%Z |}).
Proof. vm_compute. reflexivity. Qed.

Lemma vote_submit_at_most_once_witness :
  ∃ c1 c2,
    runs (initial db0) submission_alone = Some c1
    ∧ along (configured 7) c1
            (Arrives (at_time 1600 "r2" true)
                     (VoteSubmit (Verified 1) tripleA) :: afterwards)
      = Some c2
    ∧ pool c2 !! 1%nat = Some (Finished AlreadyVoted)
    ∧ ∃ r2, assignments (store c2) !! (1, 7) = Some r2
            ∧ is_Some (votedAt r2).
Proof.
  eexists _, _.
  split; [vm_compute; reflexivity|].
  split; [vm_compute; reflexivity|].
  split; [vm_compute; reflexivity|].
  refine (proj1 (vote_submit_at_most_once
                   db0 submission_alone _ (at_time 1600 "r2" true) 1 tripleA
                   7 {| issuedAt := 1500%Z; votedAt := Some 1500%Z |}
                   afterwards _ _ _ _ _)).
  - vm_compute. reflexivity.
  - vm_compute. reflexivity.
  - by eexists.
  - vm_compute. reflexivity.
Defined.

(** C8, counterexample.  In the scenario E1 is open, has never been
    closed and no tally has been run (the audit log is empty); the admin
    publishes: the answer is "Results published" and [isPublished] is
    true. *)
Lemma publish_before_close_and_tally :
  let res := handle (at_time 1500 "r1" true) (ResultsPublish (Verified 2)) db0 in
  isOpen E1 = true
  ∧ auditLogs db0 = []
  ∧ res.1 = Reply 200 (Message "Results published")
  ∧ isPublished <$> Election_findOne res.2 = Some true.
Proof. vm_compute. done. Qed.

Lemma publish_is_unconditional_witness :
  Election_findOne
    (handle (at_time 1500 "r1" true) (ResultsPublish (Verified 2)) db0).2
  = Some (with_isPublished true E1).
Proof.
  refine (proj1 (publish_is_unconditional
                   (at_time 1500 "r1" true) 2 root E1 db0 _ _ _));
    reflexivity.
Defined.

(** C9, counterexample.  The same submission, once with the audit write
    going through and once with it failing: the first is answered with the
    receipt, the second gets no response, although the vote is stored. *)
Lemma audit_failure_changes_result :
  let ok :=
    handle (at_time 1500 "r1" true) (VoteSubmit (Verified 1) pickA) db0 in
  let failed :=
    handle (at_time 1500 "r1" false) (VoteSubmit (Verified 1) pickA) db0 in
  ok.1 = Reply 200 (ReceiptBody "Vote submitted" "r1")
  ∧ failed.1 = Rejected
  ∧ failed.1 ≠ ok.1
  ∧ votes failed.2 = [voteA].
Proof. vm_compute. split_and!; [done | done | discriminate | done]. Qed.

Lemma audit_failure_fails_operation_witness :
  (handle (at_time 1500 "r1" false) (VoteSubmit (Verified 1) pickA) db0).1
  = Rejected.
Proof.
  refine (proj1 (proj2 (proj2 (audit_failure_fails_operation
                                 (at_time 1500 "r1" false) db0 _))
                       1 v1 E1 pickA _ _ _ _ _ _ _)).
  - reflexivity.
  - reflexivity.
  - reflexivity.
  - reflexivity.
  - intros a Ha. vm_compute in Ha. discriminate.
  - reflexivity.
  - reflexivity.
  - simpl. apply not_elem_of_nil.
Defined.

Lemma tally_run_reference_on_ordinary_ids_witness :
  tallied (js_tally_run pristine [contestC1] [voteA; voteAAA]) "C1" "A"
  = Num <$> tally_reference [contestC1] [voteA; voteAAA] "C1" "A".
Proof.
  refine (proj2 (proj2 (tally_run_reference_on_ordinary_ids
                          pristine [contestC1] [voteA; voteAAA] "C1" "A"
                          _ _ _))).
  - simpl. apply NoDup_singleton.
  - each_id.
  - each_id.
Defined.

Lemma tally_counts_repeated_ids_witness :
  tallied (js_tally_run pristine [contestC1] [voteA; voteAAA]) "C1" "A"
  = Some (Num 4).
Proof.
  refine (proj1 (tally_counts_repeated_ids
                   pristine [contestC1] [voteA] [] voteAAA []
                   {| contestId := "C1";
                      selectedCandidateIds := ["A"; "A"; "A"] |}
                   [] "A" 3 1 _ _ _ _ _ _)).
  - each_id.
  - each_id.
  - reflexivity.
  - simpl. apply Forall_nil_2.
  - reflexivity.
  - vm_compute. reflexivity.
Defined.

Lemma eligibility_is_window_check_witness :
  electionOpenMiddleware (at_time 2000 "r1" true) db0 = (Next E1, db0)
  ↔ isOpen E1 = true ∧ (startAt E1 ≤ 2000 ≤ endAt E1)%Z.
Proof.
  exact (proj1 (eligibility_is_window_check
                  (at_time 2000 "r1" true) db0 E1 eq_refl)).
Defined.

Lemma ballot_request_idempotent_witness :
  let db1 :=
    (handle (at_time 1500 "r1" true) (BallotGet (Verified 1)) db0).2 in
  let db2 :=
    run db1 [ (at_time 1600 "r3" true, TallyRun (Verified 2)) ] in
  oneBallotOnlyMiddleware (at_time 1700 "r2" true) v1 E1 db2
  = (Next {| issuedAt := 1500%Z; votedAt := None |}, db2).
Proof.
  refine (proj1 (proj2 (proj2 (ballot_request_idempotent
                   (at_time 1500 "r1" true) (at_time 1700 "r2" true)
                   1 v1 E1 E1 db0
                   [ (at_time 1600 "r3" true, TallyRun (Verified 2)) ]
                   _ _ _ _ _ _ _ _)))).
  - reflexivity.
  - reflexivity.
  - reflexivity.
  - reflexivity.
  - vm_compute. reflexivity.
  - reflexivity.
  - reflexivity.
  - intros a Ha. vm_compute in Ha. by injection Ha as <-.
Defined.

(** * Further properties of the tally *)

Lemma init_results_last_contest cs c :
  init_results cs !! c = zero_counts ∘ candidates <$> last_contest cs c.
Proof.
  unfold last_contest.
  induction cs as [|contest cs IH] using rev_ind; [done|].
  rewrite init_results_snoc, filter_app, last_app, lookup_insert.
  rewrite filter_cons, filter_nil.
  destruct (decide (contest_id contest = c)) as [Hc|Hc]; simpl; [done|].
  by rewrite IH.
Qed.

(** The ordinary loops keep, for a contest id, the candidates of the last
    contest that carries it. *)
Lemma plain_tally_last_contest cs vs c k :
  count_of (tally_run_results cs vs) c k
  = contest ← last_contest cs c;
    if decide (k ∈ cand_id <$> candidates contest)
    then Some (selected_count c k vs) else None.
Proof.
  rewrite tally_run_results_count_of. unfold count_of.
  rewrite init_results_last_contest.
  destruct (last_contest cs c) as [contest|]; simpl; [|done].
  rewrite zero_counts_lookup. by case_decide.
Qed.

(** The ordinary loops are additive in the votes. *)
Lemma plain_tally_additive cs vs1 vs2 c k :
  count_of (tally_run_results cs (vs1 ++ vs2)) c k
  = (λ n, (n + selected_count c k vs2)%nat)
      <$> count_of (tally_run_results cs vs1) c k
  ∧ (is_Some (tally_run_results cs (vs1 ++ vs2) !! c)
     ↔ is_Some (tally_run_results cs vs1 !! c)).
Proof.
  split.
  - rewrite !tally_run_results_count_of, selected_count_app.
    destruct (count_of (init_results cs) c k); simpl; [f_equal; lia | done].
  - by rewrite !tally_run_results_is_Some.
Qed.

(** X1.  On any schema whose ids are not [__proto__], also one that
    repeats a contest id, and votes that name only ordinary ids, the tally
    holds for contest id [c] the candidates of the last contest carrying
    that id, each with the number of times it is selected for [c]; the
    candidates of earlier contests with the same id are dropped, and an
    id that no contest carries has no entry. *)
Theorem tally_last_contest_wins op cs vs c k :
  Forall (λ x, x ≠ "__proto__") (schema_ids cs) →
  Forall (ordinary op) (vote_ids vs) →
  tallied (js_tally_run op cs vs) c k
  = contest ← last_contest cs c;
    if decide (k ∈ cand_id <$> candidates contest)
    then Some (Num (selected_count c k vs)) else None.
Proof.
  intros Hcs Hvs.
  rewrite (js_tally_run_plain op cs vs Hcs Hvs), tallied_plain.
  rewrite plain_tally_last_contest.
  destruct (last_contest cs c) as [contest|]; simpl; [|done].
  by case_decide.
Qed.

(** X2.  Tallying is additive in the votes: on a schema whose ids are not
    [__proto__] and votes that name only ordinary ids, the counts for
    [vs1 ++ vs2] are the counts for [vs1] raised by the number of
    selections in [vs2]; in particular no count shrinks, and no contest or
    candidate appears or disappears, as votes are added. *)
Theorem tally_additive op cs vs1 vs2 c k :
  Forall (λ x, x ≠ "__proto__") (schema_ids cs) →
  Forall (ordinary op) (vote_ids (vs1 ++ vs2)%list) →
  tallied (js_tally_run op cs (vs1 ++ vs2)) c k
  = raised (selected_count c k vs2) <$> tallied (js_tally_run op cs vs1) c k
  ∧ (is_Some (sent (js_tally_run op cs (vs1 ++ vs2)) ≫= λ m, m !! c)
     ↔ is_Some (sent (js_tally_run op cs vs1) ≫= λ m, m !! c)).
Proof.
  intros Hcs Hvs.
  assert (Forall (ordinary op) (vote_ids vs1)) as Hvs1.
  { rewrite vote_ids_app, Forall_app in Hvs. tauto. }
  rewrite (js_tally_run_plain op cs _ Hcs Hvs).
  rewrite (js_tally_run_plain op cs _ Hcs Hvs1).
  destruct (plain_tally_additive cs vs1 vs2 c k) as [Hcount Hentry].
  split.
  - rewrite !tallied_plain, Hcount.
    by destruct (count_of (tally_run_results cs vs1) c k).
  - by rewrite !sent_plain_is_Some.
Qed.

(** X24.  On a schema whose ids are not [__proto__] and votes that name
    only ordinary ids, the tally does not depend on the order of the
    votes: two vote sequences that are permutations of each other give
    the same results, in the admin tally and in the public results
    view. *)
Theorem tally_order_on_ordinary_ids op cs vs vs' :
  Forall (λ x, x ≠ "__proto__") (schema_ids cs) →
  Forall (ordinary op) (vote_ids vs) →
  vs ≡ₚ vs' →
  js_tally_run op cs vs = js_tally_run op cs vs'
  ∧ js_results_view op cs vs = js_results_view op cs vs'.
Proof.
  intros Hcs Hvs Hp.
  assert (Forall (ordinary op) (vote_ids vs')) as Hvs'.
  { by rewrite <-(vote_ids_perm _ _ Hp). }
  change (js_results_view op cs vs) with (js_tally_run op cs vs).
  change (js_results_view op cs vs') with (js_tally_run op cs vs').
  rewrite (js_tally_run_plain op cs vs Hcs Hvs).
  rewrite (js_tally_run_plain op cs vs' Hcs Hvs').
  destruct (plain_tally_permutation cs vs vs' Hp) as [-> _]. done.
Qed.

(** * What every request keeps *)

Lemma handle_votes env req db :
  ∃ new, votes (handle env req db).2 = (votes db ++ new)%list
         ∧ (length new ≤ 1)%nat
         ∧ (new ≠ [] → ∃ a sels, req = VoteSubmit a sels)
         ∧ Forall (λ v, receipt v ∉ receipt <$> votes db) new.
Proof.
  destruct req; unfold_routes; simpl;
    repeat (case_match; simplify_eq/=; try done).
  all: try (exists []; rewrite app_nil_r;
            split_and!; [done | simpl; lia | done | by constructor]).
  all: eexists [_]; (split_and!; [done | simpl; lia | by eauto |]).
  all: repeat match goal with
         | H : _ && _ = true |- _ => apply andb_prop in H as [? ?]
         end.
  all: constructor; [|by constructor]; simpl.
  all: intros (v & Hv & Hin)%list_elem_of_fmap.
  all: match goal with
       | H : negb (existsb _ _) = true |- _ =>
           apply negb_true_iff in H;
           apply not_true_iff_false in H; apply H
       end.
  all: apply existsb_exists; exists v;
    (split; [by apply list_elem_of_In | by apply String.eqb_eq]).
Qed.

(** X3.  The vote store is append-only.  A request never removes or
    changes a stored vote and adds at most one, and only a vote
    submission adds one; so after any run the votes that were stored are
    a prefix of the store, which has grown by at most the number of
    requests. *)
Theorem votes_append_only db trace :
  votes db `prefix_of` votes (run db trace)
  ∧ (length (votes (run db trace)) ≤ length (votes db) + length trace)%nat
  ∧ (Forall (λ er, ∀ a sels, er.2 ≠ VoteSubmit a sels) trace →
     votes (run db trace) = votes db).
Proof.
  induction trace as [|er trace (Hpre & Hlen & Hsame)] using rev_ind.
  - split_and!; [done | simpl; lia | done].
  - rewrite run_snoc.
    destruct (handle_votes er.1 er.2 (run db trace))
      as (new & -> & Hnew & Hsubmit & _).
    split_and!.
    + etrans; [exact Hpre|]. by apply prefix_app_r.
    + rewrite !length_app. simpl. lia.
    + intros [Htrace Her]%Forall_app. rewrite Hsame by done.
      rewrite Forall_singleton in Her.
      destruct new as [|v new]; [by rewrite app_nil_r|].
      destruct Hsubmit as (a & sels & Hreq); [done|]. by destruct (Her a sels).
Qed.

(** X4.  Receipts stay unique: if no two stored votes share a receipt,
    then after any run no two stored votes share one. *)
Theorem receipts_stay_unique db trace :
  NoDup (receipt <$> votes db) →
  NoDup (receipt <$> votes (run db trace)).
Proof.
  intros Hnd. induction trace as [|er trace IH] using rev_ind; [done|].
  rewrite run_snoc.
  destruct (handle_votes er.1 er.2 (run db trace))
    as (new & -> & Hnew & _ & Hfresh).
  destruct new as [|v [|w new]]; simpl in Hnew; [|clear Hnew|lia].
  - by rewrite app_nil_r.
  - rewrite fmap_app. apply NoDup_app. split_and!; [done | |].
    + intros r Hr. simpl. rewrite list_elem_of_singleton. intros ->.
      by rewrite Forall_singleton in Hfresh.
    + simpl. apply NoDup_singleton.
Qed.

Lemma handle_auditLogs env req db :
  ∃ new, auditLogs (handle env req db).2 = (auditLogs db ++ new)%list
         ∧ (length new ≤ 1)%nat
         ∧ Forall (λ entry, action entry ∈ audit_actions
                            ∧ createdAt entry = now env) new.
Proof.
  destruct req; unfold_routes; simpl;
    repeat (case_match; simplify_eq/=; try done).
  all: try (exists []; rewrite app_nil_r;
            split_and!; [done | simpl; lia | by constructor]).
  all: eexists [_]; (split_and!; [done | simpl; lia |]).
  all: constructor; [|by constructor]; simpl.
  all: split; [|done]; unfold audit_actions; set_solver.
Qed.

(** X5.  The audit log is write-only.  A request never removes or
    changes an entry and appends at most one; an appended entry carries
    one of the eight action tags of these routes and the time of the
    request.  After any run the old log is a prefix of the new one. *)
Theorem audit_log_append_only env req db trace :
  (∃ new, auditLogs (handle env req db).2 = (auditLogs db ++ new)%list
          ∧ (length new ≤ 1)%nat
          ∧ Forall (λ entry, action entry ∈ audit_actions
                             ∧ createdAt entry = now env) new)
  ∧ auditLogs db `prefix_of` auditLogs (run db trace).
Proof.
  split; [apply handle_auditLogs|].
  induction trace as [|er trace IH] using rev_ind; [done|].
  rewrite run_snoc.
  destruct (handle_auditLogs er.1 er.2 (run db trace)) as (new & -> & _).
  etrans; [exact IH|]. by apply prefix_app_r.
Qed.

(** * The gates in front of the routes *)

(** X8.  Authentication comes first on every route that has it.  Without
    an [Authorization] header, with a header that holds no token, or with
    a verified token whose user is not stored, the request is answered
    401 and the database is left as it was.  With a token that does not
    verify, an [auth_failed] entry without actor is written, holding the
    error, and the answer is 401; if that write fails, there is no
    answer. *)
Theorem authentication_comes_first env req a db :
  authorization_of req = Some a →
  (a = NoHeader →
   handle env req db = (Reply 401 (Message "No Authorization header"), db))
  ∧ (a = NoToken →
     handle env req db = (Reply 401 (Message "Invalid token header"), db))
  ∧ (∀ sub, a = Verified sub → Voter_findById sub db = None →
     handle env req db = (Reply 401 (Message "User not found"), db))
  ∧ (∀ err, a = BadToken err →
     handle env req db
     = if auditWriteOk env
       then (Reply 401 (Message "Invalid or expired token"),
             set_auditLogs
               (auditLogs db ++
                  [ {| actor := None; actorId := None;
                       action := "auth_failed"; details := ErrDetails err;
                       createdAt := now env |} ]) db)
       else (Rejected, db)).
Proof.
  intros Hreq.
  split_and!; [intros -> | intros -> | intros sub -> Hnone | intros err ->].
  all: destruct req; simplify_eq/=.
  all: unfold_routes; simpl; rewrite ?Hnone; simpl;
    by destruct (auditWriteOk env).
Qed.

(** X9.  The admin routes are closed to everyone else: a setup, open,
    close, tally or publish request of a stored user whose role is not
    [admin] is answered "Admin only" and changes nothing. *)
Theorem admin_routes_need_admin env req sub u db :
  admin_route req = true →
  authorization_of req = Some (Verified sub) →
  Voter_findById sub db = Some u →
  role (user_doc u) ≠ "admin" →
  handle env req db = (NotAuthorized, db).
Proof.
  intros Hadmin Hreq Hu Hrole.
  apply String.eqb_neq in Hrole.
  destruct req; simplify_eq/=.
  all: unfold_routes; simpl; by rewrite Hu, Hrole.
Qed.

(** X10.  Without a configured election, a ballot request and a vote
    submission of a stored user are answered "No election configured";
    the admin's open, close, tally and publish requests and the public
    results view end without an answer, because they read a property of
    the missing election.  Nothing is changed in any of these cases. *)
Theorem nothing_works_without_election env sub u sels db :
  Election_findOne db = None →
  Voter_findById sub db = Some u →
  handle env (BallotGet (Verified sub)) db = (NotFound, db)
  ∧ handle env (VoteSubmit (Verified sub) sels) db = (NotFound, db)
  ∧ handle env ResultsView db = (Rejected, db)
  ∧ (role (user_doc u) = "admin" →
     handle env (ElectionOpen (Verified sub)) db = (Rejected, db)
     ∧ handle env (ElectionClose (Verified sub)) db = (Rejected, db)
     ∧ handle env (TallyRun (Verified sub)) db = (Rejected, db)
     ∧ handle env (ResultsPublish (Verified sub)) db = (Rejected, db)).
Proof.
  intros Hnone Hu.
  split_and!; [| | |intros Hrole; split_and!].
  all: unfold_routes; simpl; rewrite ?Hu, ?Hrole, ?Hnone; simpl;
    by rewrite ?Hnone.
Qed.

(** * Administration of the election *)

(** X11.  A setup replaces the election.  For an admin and a body that
    passes the schema, every stored election is deleted and the new one is
    the only one: it has the fields of the body and the fresh id, and it is
    neither open nor published.  Voters, assignments and stored votes are
    untouched.  The answer is 201 with the new election when the audit
    write goes through. *)
Theorem setup_replaces_election env sub u p db :
  Voter_findById sub db = Some u →
  role (user_doc u) = "admin" →
  payload_valid p = true →
  let created :=
    {| election_id := freshId env; election_name := payload_name p;
       startAt := payload_startAt p; endAt := payload_endAt p;
       isOpen := false; isPublished := false;
       contests := payload_contests p |} in
  let res := handle env (ElectionSetup (Verified sub) p) db in
  elections res.2 = [created]
  ∧ voters res.2 = voters db
  ∧ assignments res.2 = assignments db
  ∧ votes res.2 = votes db
  ∧ res.1 = (if auditWriteOk env then Reply 201 (ElectionBody created)
             else Rejected).
Proof.
  intros Hu Hrole Hvalid. unfold payload_valid in Hvalid.
  unfold_routes; simpl. rewrite Hu, Hrole; simpl. rewrite Hvalid; simpl.
  by destruct (auditWriteOk env).
Qed.

(** X12.  A setup deletes before it validates.  For an admin and a body
    that fails the schema (an empty name, or a contest or candidate with
    an empty id, title or name), the stored elections are deleted, no
    election is created, nothing is logged and the request ends without an
    answer; from then on ballot requests are answered "No election
    configured". *)
Theorem invalid_setup_deletes_election env env2 sub u sub2 u2 p db :
  Voter_findById sub db = Some u →
  role (user_doc u) = "admin" →
  payload_valid p = false →
  Voter_findById sub2 db = Some u2 →
  let res := handle env (ElectionSetup (Verified sub) p) db in
  res = (Rejected, set_elections [] db)
  ∧ handle env2 (BallotGet (Verified sub2)) res.2 = (NotFound, res.2).
Proof.
  intros Hu Hrole Hvalid Hu2. unfold payload_valid in Hvalid.
  assert (handle env (ElectionSetup (Verified sub) p) db
          = (Rejected, set_elections [] db)) as Hres.
  { unfold_routes; simpl. rewrite Hu, Hrole; simpl. by rewrite Hvalid. }
  simpl. rewrite Hres. split; [done|].
  unfold_routes; simpl.
  unfold Voter_findById in *; simpl. by rewrite Hu2.
Qed.

Lemma Election_save_fields e e' db :
  Election_findOne db = Some e →
  election_id e' = election_id e →
  let db' := (Election_save e' db).2 in
  Election_findOne db' = Some e'
  ∧ voters db' = voters db ∧ assignments db' = assignments db
  ∧ votes db' = votes db ∧ auditLogs db' = auditLogs db.
Proof.
  intros He Hid. split; [by eapply Election_save_findOne|done].
Qed.

(** X13.  Closing stops the voting at once and for every instant.  When
    an admin closes, the configured election has [isOpen] false and is
    otherwise unchanged, whether or not the audit write goes through; from
    that state every ballot request and every vote submission of a stored
    user is answered "Election not open", whatever the time. *)
Theorem close_stops_voting env env2 sub u sub2 u2 sels e db :
  Voter_findById sub db = Some u →
  role (user_doc u) = "admin" →
  Election_findOne db = Some e →
  Voter_findById sub2 db = Some u2 →
  let res := handle env (ElectionClose (Verified sub)) db in
  Election_findOne res.2 = Some (with_isOpen false e)
  ∧ res.1 = (if auditWriteOk env then Reply 200 (Message "Election closed")
             else Rejected)
  ∧ handle env2 (BallotGet (Verified sub2)) res.2 = (NotEligible, res.2)
  ∧ handle env2 (VoteSubmit (Verified sub2) sels) res.2
    = (NotEligible, res.2).
Proof.
  intros Hu Hrole He Hu2 res.
  destruct (Election_save_fields e (with_isOpen false e) db He eq_refl)
    as (Hsaved & Hvoters & _).
  assert (Election_findOne res.2 = Some (with_isOpen false e)
          ∧ voters res.2 = voters db
          ∧ res.1 = (if auditWriteOk env
                     then Reply 200 (Message "Election closed")
                     else Rejected)) as (He' & Hv' & Hout).
  { subst res. unfold_routes; simpl. rewrite Hu, Hrole; simpl.
    rewrite He; simpl.
    unfold Election_save, modify_db in Hsaved, Hvoters. simpl in *.
    by destruct (auditWriteOk env). }
  assert (Voter_findById sub2 res.2 = Some u2) as Hu2'.
  { rewrite <- Hu2. by apply Voter_findById_voters. }
  split_and!; [done | done | |].
  - by eapply ballot_get_not_eligible.
  - by eapply vote_submit_not_eligible.
Qed.

(** X14.  Opening sets [isOpen] and nothing else, so that eligibility
    becomes the time window alone: after an admin has opened, the
    configured election is the old one with [isOpen] true, and the
    eligibility gate lets a request through at time [now] exactly when
    [startAt ≤ now ≤ endAt].  Opening outside the window therefore lets
    nobody vote.  Assignments and votes are untouched. *)
Theorem open_leaves_the_window env env2 sub u e db :
  Voter_findById sub db = Some u →
  role (user_doc u) = "admin" →
  Election_findOne db = Some e →
  let res := handle env (ElectionOpen (Verified sub)) db in
  Election_findOne res.2 = Some (with_isOpen true e)
  ∧ res.1 = (if auditWriteOk env then Reply 200 (Message "Election opened")
             else Rejected)
  ∧ electionOpenMiddleware env2 res.2
    = (if decide (startAt e ≤ now env2 ≤ endAt e)%Z
       then Next (with_isOpen true e) else Done NotEligible, res.2)
  ∧ assignments res.2 = assignments db
  ∧ votes res.2 = votes db.
Proof.
  intros Hu Hrole He res.
  destruct (Election_save_fields e (with_isOpen true e) db He eq_refl)
    as (Hsaved & _).
  assert (Election_findOne res.2 = Some (with_isOpen true e)) as He'.
  { subst res; unfold_routes; simpl; rewrite Hu, Hrole; simpl.
    rewrite He; simpl.
    unfold Election_save, modify_db in Hsaved; simpl in *.
    by destruct (auditWriteOk env). }
  split_and!; [done | | |..].
  2:{ rewrite (electionOpenMiddleware_spec _ _ _ He').
      pose proof (isAcceptingBallots_true (with_isOpen true e) (now env2))
        as Hiff. simpl in Hiff.
      destruct (isAcceptingBallots (with_isOpen true e) (now env2));
        case_decide; naive_solver. }
  all: subst res; unfold_routes; simpl; rewrite Hu, Hrole; simpl;
    rewrite He; simpl; by destruct (auditWriteOk env).
Qed.

(** * Results *)


Lemma AnonymousVote_find_others eid others db :
  Forall (λ v, electionId v ≠ eid) others →
  AnonymousVote_find eid (set_votes (votes db ++ others) db)
  = AnonymousVote_find eid db.
Proof.
  intros Hothers. unfold AnonymousVote_find. simpl.
  rewrite filter_app.
  assert (filter (λ v, electionId v = eid) others = []) as ->.
  { induction Hothers as [|v others Hv _ IH]; [done|].
    by rewrite filter_cons, decide_False. }
  by rewrite app_nil_r.
Qed.

(** X16.  A tally reads only the votes of the configured election: votes
    stored for other election ids, such as those of an election that a
    setup has replaced, change neither the admin's tally nor the public
    results. *)
Theorem tally_ignores_other_elections env a e others db :
  Election_findOne db = Some e →
  Forall (λ v, electionId v ≠ election_id e) others →
  let db' := set_votes (votes db ++ others) db in
  (handle env (TallyRun a) db').1 = (handle env (TallyRun a) db).1
  ∧ (handle env ResultsView db').1 = (handle env ResultsView db).1.
Proof.
  intros He Hothers db'. subst db'.
  pose proof (AnonymousVote_find_others _ _ db Hothers) as Hfind.
  split.
  - destruct a as [| |err|sub]; unfold_routes;
      cbn -[AnonymousVote_find Voter_findById Election_findOne]; try done.
    + destruct (auditWriteOk env); by cbn -[AnonymousVote_find Voter_findById Election_findOne].
    + change (Voter_findById sub (set_votes _ db))
        with (Voter_findById sub db).
      destruct (Voter_findById sub db) as [u|]; cbn -[AnonymousVote_find Voter_findById Election_findOne];
        [|done].
      destruct (role (user_doc u) =? "admin")%string;
        cbn -[AnonymousVote_find Voter_findById Election_findOne]; [|done].
      change (Election_findOne (set_votes _ db)) with (Election_findOne db).
      rewrite He. cbn -[AnonymousVote_find Voter_findById Election_findOne]. rewrite Hfind.
      destruct (auditWriteOk env); by cbn -[AnonymousVote_find Voter_findById Election_findOne].
  - unfold_routes; cbn -[AnonymousVote_find Voter_findById Election_findOne].
    change (Election_findOne (set_votes _ db)) with (Election_findOne db).
    rewrite He. cbn -[AnonymousVote_find Voter_findById Election_findOne].
    destruct (isPublished e); cbn -[AnonymousVote_find Voter_findById Election_findOne]; [|done].
    by rewrite Hfind.
Qed.


(** * Submissions that fail late, and ballot requests *)

(** X18.  A submission that passes the three gates but is refused by the
    vote store ends without an answer and without a trace: when a
    selection has an empty [contestId], or the receipt is empty or
    already the receipt of a stored vote, no vote is stored, nothing is
    logged, and the voter's assignment is stored without [votedAt], so
    the voter can submit again. *)
Theorem refused_submission_can_be_retried env sub u e sels db :
  Voter_findById sub db = Some u →
  Election_findOne db = Some e →
  isAcceptingBallots e (now env) = true →
  (∀ a, assignments db !! (sub, election_id e) = Some a → votedAt a = None) →
  (∃ s, s ∈ sels ∧ contestId s = "")
  ∨ randomReceipt env = ""
  ∨ randomReceipt env ∈ receipt <$> votes db →
  let res := handle env (VoteSubmit (Verified sub) sels) db in
  res.1 = Rejected
  ∧ votes res.2 = votes db
  ∧ auditLogs res.2 = auditLogs db
  ∧ ∃ a, assignments res.2 !! (sub, election_id e) = Some a
         ∧ votedAt a = None.
Proof.
  intros Hu He Hacc Hnot Hbad res. subst res.
  pose proof (Voter_findById_user_id _ _ _ Hu) as Hid.
  assert (forallb SelectionSchema_valid sels
          && required (randomReceipt env)
          && negb (existsb (λ v, String.eqb (receipt v) (randomReceipt env))
                           (votes db)) = false) as Hrefused.
  { apply not_true_iff_false. intros Hok.
    apply andb_prop in Hok as [Hok Hfresh].
    apply andb_prop in Hok as [Hvalid Hreq].
    destruct Hbad as [(s & Hs & Hempty) | [Hempty | Hused]].
    - rewrite forallb_forall in Hvalid.
      specialize (Hvalid s (proj1 (list_elem_of_In _ _) Hs)).
      unfold SelectionSchema_valid, required in Hvalid.
      by rewrite Hempty in Hvalid.
    - unfold required in Hreq. by rewrite Hempty in Hreq.
    - apply negb_true_iff, not_true_iff_false in Hfresh. apply Hfresh.
      apply list_elem_of_fmap in Hused as (v & Hv & Hin).
      apply existsb_exists. exists v.
      split; [by apply list_elem_of_In | by apply String.eqb_eq]. }
  unfold handle, serve, route, vote_submit, bind.
  rewrite (authMiddleware_verified _ _ _ _ Hu).
  rewrite (electionOpenMiddleware_spec _ _ _ He), Hacc.
  unfold oneBallotOnlyMiddleware, AnonymousVote_create,
    bind, ret, reply, reject, get_db, modify_db.
  rewrite Hid.
  destruct (assignments db !! (sub, election_id e)) as [a|] eqn:Ha; simpl.
  - rewrite (Hnot a eq_refl). simpl. rewrite Hrefused. simpl.
    split_and!; try done. exists a. split; [done | by apply Hnot].
  - rewrite Hrefused. simpl. split_and!; try done.
    eexists. split; [apply lookup_insert_eq | done].
Qed.

(** X19.  Requesting a ballot uses nothing up: it stores no vote, changes
    no election and no voter, and leaves every stored assignment as it
    is; the only assignment it can add is one without [votedAt]. *)
Theorem ballot_request_uses_nothing_up env a db :
  let res := handle env (BallotGet a) db in
  voters res.2 = voters db
  ∧ elections res.2 = elections db
  ∧ votes res.2 = votes db
  ∧ (∀ key r, assignments db !! key = Some r →
              assignments res.2 !! key = Some r)
  ∧ (∀ key r, assignments res.2 !! key = Some r →
              assignments db !! key = None →
              votedAt r = None ∧ issuedAt r = now env).
Proof.
  unfold_routes; simpl.
  repeat (case_match; simplify_eq/=; try done).
  all: split_and!; try done.
  all: try (intros key r Hr Hnone; congruence).
  all: intros key r;
    match goal with
    | |- context [ <[?k := _]> _ ] =>
        destruct (decide (key = k)) as [->|Hne];
        rewrite ?lookup_insert_eq, ?lookup_insert_ne by done
    end; try congruence.
  all: by intros [= <-].
Qed.

(** * Login *)

(** X20.  A failed login does not tell which part failed.  With both
    fields present, an email that no voter has and a wrong password for
    an existing voter get the same answer, "Invalid credentials", and
    write the same [login_failed] entry, whose actor is the email as it
    was typed.  With a field missing the answer is "Missing credentials"
    and nothing is written. *)
Theorem login_failure_is_uniform lib env mail password db :
  (mail = "" ∨ password = "" →
   auth_login lib env mail password db
   = (LoginReply 400 "Missing credentials", db))
  ∧ (mail ≠ "" → password ≠ "" →
     (∀ u, Voter_findOne lib mail db = Some u →
           validatePassword lib u password = false) →
     auth_login lib env mail password db
     = if auditWriteOk env
       then (LoginReply 401 "Invalid credentials",
             set_auditLogs
               (auditLogs db ++
                  [ {| actor := Some mail; actorId := None;
                       action := "login_failed"; details := NoDetails;
                       createdAt := now env |} ]) db)
       else (LoginRejected, db)).
Proof.
  unfold auth_login, audited, AuditLog_create, required, modify_db, reject.
  split.
  - intros [-> | ->]; simpl; [done|]. by rewrite orb_true_r.
  - intros Hmail%String.eqb_neq Hpw%String.eqb_neq Hfail.
    rewrite Hmail, Hpw. simpl.
    destruct (Voter_findOne lib mail db) as [u|].
    + rewrite (Hfail u eq_refl). by destruct (auditWriteOk env).
    + by destruct (auditWriteOk env).
Qed.

(** X21.  A token is handed out only to a stored voter whose password
    matches: it is signed for that voter's id, role and email, and the
    [login_success] entry has been written.  Whatever its result, a
    login changes no voter, election, assignment or vote. *)
Theorem login_token_needs_password lib env mail password db :
  let res := auth_login lib env mail password db in
  (∀ token, res.1 = LoginToken token →
     ∃ u, Voter_findOne lib mail db = Some u
          ∧ validatePassword lib u password = true
          ∧ token = sign lib (user_id u) (role (user_doc u))
                         (email (user_doc u))
          ∧ auditLogs res.2
            = (auditLogs db ++
                 [ {| actor := Some (email (user_doc u));
                      actorId := Some (user_id u);
                      action := "login_success"; details := NoDetails;
                      createdAt := now env |} ])%list)
  ∧ voters res.2 = voters db
  ∧ elections res.2 = elections db
  ∧ assignments res.2 = assignments db
  ∧ votes res.2 = votes db.
Proof.
  unfold auth_login, audited, AuditLog_create, modify_db, reject.
  repeat (case_match; simplify_eq/=; try done).
  all: split_and!; try done.
  all: intros token [= <-]; eauto.
Qed.

(** * Who can change what *)

(** X22.  Only a stored admin changes the election.  Whenever a request
    leaves the stored elections different from what they were, it is a
    setup, open, close or publish request whose token belongs to a stored
    user with role [admin]. *)
Theorem only_admin_changes_election env req db :
  elections (handle env req db).2 ≠ elections db →
  ∃ sub u,
    authorization_of req = Some (Verified sub)
    ∧ Voter_findById sub db = Some u
    ∧ role (user_doc u) = "admin"
    ∧ admin_route req = true
    ∧ ∀ a, req ≠ TallyRun a.
Proof.
  destruct req; unfold_routes; simpl; intros Hchanged;
    repeat (case_match; simplify_eq/=; try done).
  all: eexists _, _; split_and!; try done.
  all: by apply String.eqb_eq.
Qed.

Lemma only_admin_changes_election_witness :
  ∃ sub u,
    authorization_of (ElectionClose (Verified 2)) = Some (Verified sub)
    ∧ Voter_findById sub db0 = Some u
    ∧ role (user_doc u) = "admin"
    ∧ admin_route (ElectionClose (Verified 2)) = true
    ∧ ∀ a, ElectionClose (Verified 2) ≠ TallyRun a.
Proof.
  refine (only_admin_changes_election
            (at_time 1500 "r1" true) (ElectionClose (Verified 2)) db0 _).
  vm_compute. discriminate.
Defined.

(** * The further properties on the scenario *)

Lemma tally_last_contest_wins_witness :
  tallied (js_tally_run pristine Odd.twice [voteA]) "C1" "A" = None
  ∧ tallied (js_tally_run pristine Odd.twice [voteA]) "C1" "B"
    = Some (Num 0).
Proof.
  split.
  - refine (eq_trans (tally_last_contest_wins
                        pristine Odd.twice [voteA] "C1" "A" _ _) _).
    + each_id.
    + each_id.
    + by vm_compute.
  - refine (eq_trans (tally_last_contest_wins
                        pristine Odd.twice [voteA] "C1" "B" _ _) _).
    + each_id.
    + each_id.
    + by vm_compute.
Defined.

Lemma tally_additive_witness :
  tallied (js_tally_run pristine [contestC1] [voteA; voteAAA]) "C1" "A"
  = raised 3
      <$> tallied (js_tally_run pristine [contestC1] [voteA]) "C1" "A".
Proof.
  refine (proj1 (tally_additive pristine [contestC1] [voteA] [voteAAA]
                   "C1" "A" _ _)).
  - each_id.
  - each_id.
Defined.

Lemma tally_order_on_ordinary_ids_witness :
  js_tally_run pristine [contestC1] [voteA; voteAAA]
  = js_tally_run pristine [contestC1] [voteAAA; voteA].
Proof.
  refine (proj1 (tally_order_on_ordinary_ids
                   pristine [contestC1] [voteA; voteAAA] [voteAAA; voteA]
                   _ _ _)).
  - each_id.
  - each_id.
  - apply perm_swap.
Defined.

Lemma receipts_stay_unique_witness :
  NoDup (receipt <$>
           votes (run db0
                    [ (at_time 1500 "r1" true, VoteSubmit (Verified 1) pickA);
                      (at_time 1600 "r1" true,
                       VoteSubmit (Verified 2) pickA) ])).
Proof.
  refine (receipts_stay_unique db0 _ _). simpl. apply NoDup_nil_2.
Defined.

Lemma assignments_are_kept_witness :
  ∃ c1 c2,
    runs (initial db0) (take 12 race) = Some c1
    ∧ runs c1 (drop 12 race) = Some c2
    ∧ assignments (store c1) !! (1, 7)
      = Some {| issuedAt := 1500%Z; votedAt := Some 1500%Z |}
    ∧ ∃ r', assignments (store c2) !! (1, 7) = Some r'
            ∧ issuedAt r' = 1500%Z
            ∧ is_Some (votedAt r').
Proof.
  eexists _, _.
  split; [vm_compute; reflexivity|].
  split; [vm_compute; reflexivity|].
  split; [vm_compute; reflexivity|].
  epose proof (assignments_are_kept
                 db0 (take 12 race) _ (drop 12 race) _ (1, 7)
                 {| issuedAt := 1500%Z; votedAt := Some 1500%Z |}) as Hkept.
  destruct Hkept as (r' & Hr' & Hi & Hv).
  - vm_compute. reflexivity.
  - vm_compute. reflexivity.
  - vm_compute. reflexivity.
  - exists r'. split; [exact Hr'|]. split; [exact Hi|]. apply Hv. by eexists.
Defined.

Lemma authentication_comes_first_witness :
  handle (at_time 1500 "r1" true) (TallyRun NoHeader) db0
  = (Reply 401 (Message "No Authorization header"), db0).
Proof.
  refine (proj1 (authentication_comes_first
                   (at_time 1500 "r1" true) (TallyRun NoHeader) NoHeader db0
                   _) _);
    reflexivity.
Defined.

Lemma admin_routes_need_admin_witness :
  handle (at_time 1500 "r1" true) (ResultsPublish (Verified 1)) db0
  = (NotAuthorized, db0).
Proof.
  refine (admin_routes_need_admin
            (at_time 1500 "r1" true) (ResultsPublish (Verified 1)) 1 v1 db0
            _ _ _ _).
  - reflexivity.
  - reflexivity.
  - reflexivity.
  - simpl. discriminate.
Defined.

Lemma nothing_works_without_election_witness :
  handle (at_time 1500 "r1" true) (BallotGet (Verified 2))
         (set_elections [] db0)
  = (NotFound, set_elections [] db0).
Proof.
  refine (proj1 (nothing_works_without_election
                   (at_time 1500 "r1" true) 2 root pickA
                   (set_elections [] db0) _ _));
    reflexivity.
Defined.

Lemma setup_replaces_election_witness :
  elections
    (handle (at_time 1500 "r1" true)
            (ElectionSetup (Verified 2)
               {| payload_name := "E2"; payload_startAt := 3000%Z;
                  payload_endAt := 4000%Z; payload_contests := [contestC1] |})
            db0).2
  = [ {| election_id := 8; election_name := "E2"; startAt := 3000%Z;
         endAt := 4000%Z; isOpen := false; isPublished := false;
         contests := [contestC1] |} ].
Proof.
  refine (proj1 (setup_replaces_election
                   (at_time 1500 "r1" true) 2 root
                   {| payload_name := "E2"; payload_startAt := 3000%Z;
                      payload_endAt := 4000%Z;
                      payload_contests := [contestC1] |}
                   db0 _ _ _));
    reflexivity.
Defined.

Lemma invalid_setup_deletes_election_witness :
  handle (at_time 1500 "r1" true)
         (ElectionSetup (Verified 2)
            {| payload_name := ""; payload_startAt := 3000%Z;
               payload_endAt := 4000%Z; payload_contests := [contestC1] |})
         db0
  = (Rejected, set_elections [] db0).
Proof.
  refine (proj1 (invalid_setup_deletes_election
                   (at_time 1500 "r1" true) (at_time 1600 "r2" true)
                   2 root 1 v1
                   {| payload_name := ""; payload_startAt := 3000%Z;
                      payload_endAt := 4000%Z;
                      payload_contests := [contestC1] |}
                   db0 _ _ _ _));
    reflexivity.
Defined.

Lemma close_stops_voting_witness :
  let closed :=
    (handle (at_time 1400 "r0" true) (ElectionClose (Verified 2)) db0).2 in
  handle (at_time 1500 "r1" true) (VoteSubmit (Verified 1) pickA) closed
  = (NotEligible, closed).
Proof.
  refine (proj2 (proj2 (proj2 (close_stops_voting
                   (at_time 1400 "r0" true) (at_time 1500 "r1" true)
                   2 root 1 v1 pickA E1 db0 _ _ _ _))));
    reflexivity.
Defined.

Lemma open_leaves_the_window_witness :
  let opened :=
    (handle (at_time 500 "r0" true) (ElectionOpen (Verified 2)) db0).2 in
  electionOpenMiddleware (at_time 500 "r1" true) opened
  = (Done NotEligible, opened).
Proof.
  refine (proj1 (proj2 (proj2 (open_leaves_the_window
                   (at_time 500 "r0" true) (at_time 500 "r1" true)
                   2 root E1 db0 _ _ _))));
    reflexivity.
Defined.


Lemma tally_ignores_other_elections_witness :
  let old := {| electionId := 3; selections := pickA;
                submittedAt := 100%Z; receipt := "old" |} in
  (handle (at_time 1500 "r1" true) (TallyRun (Verified 2))
          (set_votes (votes db0 ++ [old]) db0)).1
  = (handle (at_time 1500 "r1" true) (TallyRun (Verified 2)) db0).1.
Proof.
  refine (proj1 (tally_ignores_other_elections
                   (at_time 1500 "r1" true) (Verified 2) E1
                   [ {| electionId := 3; selections := pickA;
                        submittedAt := 100%Z; receipt := "old" |} ]
                   db0 _ _)).
  - reflexivity.
  - apply Forall_singleton. simpl. discriminate.
Defined.

Lemma refused_submission_can_be_retried_witness :
  (handle (at_time 1500 "r1" true)
          (VoteSubmit (Verified 1)
             [ {| contestId := ""; selectedCandidateIds := ["A"] |} ])
          db0).1
  = Rejected.
Proof.
  refine (proj1 (refused_submission_can_be_retried
                   (at_time 1500 "r1" true) 1 v1 E1
                   [ {| contestId := ""; selectedCandidateIds := ["A"] |} ]
                   db0 _ _ _ _ _)).
  - reflexivity.
  - reflexivity.
  - reflexivity.
  - intros a Ha. vm_compute in Ha. discriminate.
  - left. eexists. split; [apply list_elem_of_singleton; reflexivity|].
    reflexivity.
Defined.
